(** * A shallow embedding of the padel training simulator (src/app/page.tsx)

    Numbers of the TypeScript source ([number]) are modelled as exact
    rationals [Q]; integer-valued quantities (score, counters, points,
    timestamps in milliseconds) as [Z].  [Math.random] is a stream of
    rationals indexed by the number of draws so far, and [Math.sqrt] is an
    arbitrary function [Q -> Q] where its value matters only as the
    distance handed to [calculatePoints]. *)

From Stdlib Require Import ZArith QArith Qround Qabs List String Lia Lqa.
Import ListNotations.
Open Scope Z_scope.

(** ** Data model *)

Inductive GameState := Menu | InGame | End.
(* 'menu' | 'game' | 'end' *)

Inductive Difficulty := easy | intermediate | hard.

Inductive Size := small | large.

Definition Difficulty_eqb (a b : Difficulty) : bool :=
  match a, b with
  | easy, easy | intermediate, intermediate | hard, hard => true
  | _, _ => false
  end.

Record Target := mkTarget {
  id : Z;
  x : Q;
  y : Q;
  radius : Q;
  size : Size;
  velocity : Q;
  direction : Q;
  createdAt : Z
}.

Record Feedback := mkFeedback {
  fb_x : Q;
  fb_y : Q;
  text : string;
  points : Z;
  opacity : Q;
  isMiss : option bool  (* [isMiss?: boolean]; [None] when absent *)
}.

Record Sparkle := mkSparkle {
  sp_x : Q;
  sp_y : Q;
  life : Q;
  angle : Q;
  speed : Q;
  rotation : Q
}.

Record GameStats := mkGameStats {
  finalScore : Z;
  perfectHits_st : Z;
  totalHits_st : Z;
  reactionTimes_st : list Z;
  averageReactionTime : Q;
  mode : Difficulty
}.

(** The contents of [gameRef.current]. *)
Record GameVars := mkGameVars {
  score : Z;
  timeLeft : Q;
  targets : list Target;
  feedback : list Feedback;
  sparkles : list Sparkle;
  nextTargetId : Z;
  perfectHits : Z;
  totalHits : Z;
  mousePos : Q * Q;
  reactionTimes : list Z
}.

Definition emptyGameVars : GameVars :=
  mkGameVars 0 60 [] [] [] 0 0 0 (0%Q, 0%Q) [].

(** ** Small helpers for [number] *)

Definition Qltb (a b : Q) : bool := negb (Qle_bool b a).
Definition Qleb (a b : Q) : bool := Qle_bool a b.
Definition Qmax (a b : Q) : Q := if Qle_bool a b then b else a.
Definition Qmin (a b : Q) : Q := if Qle_bool a b then a else b.

(** Decimal rendering of an integer, as in a template literal [`${n}`]. *)
Fixpoint digits_aux (fuel : nat) (n : Z) (acc : string) : string :=
  match fuel with
  | O => acc
  | S f =>
      let d := Z.modulo n 10 in
      let c := Ascii.ascii_of_nat (48 + Z.to_nat d) in
      let acc' := String c acc in
      if Z.ltb n 10 then acc' else digits_aux f (Z.div n 10) acc'
  end.

Definition string_of_Z (n : Z) : string :=
  if Z.ltb n 0 then ("-" ++ digits_aux 64 (- n) EmptyString)%string
  else digits_aux 64 n EmptyString.

(** ** [calculatePoints] *)

Definition calculatePoints (distance radius : Q) : Z * string :=
  let accuracy := (1 - distance / radius)%Q in
  if Qltb (95 # 100) accuracy then (100, "PERFECT"%string)
  else
    let points := Qfloor (accuracy * 100) in
    (points, ("+" ++ string_of_Z points)%string).

Example calculatePoints_center : calculatePoints 0 190 = (100, "PERFECT"%string).
Proof. reflexivity. Qed.

Example calculatePoints_edge : calculatePoints 130 130 = (0, "+0"%string).
Proof. reflexivity. Qed.

Example calculatePoints_mid : calculatePoints 57 190 = (70, "+70"%string).
Proof. reflexivity. Qed.

(** ** Canvas geometry (derived from [canvasSize]) *)

Definition TARGET_SPAWN_Y (CANVAS_HEIGHT : Q) : Q := (CANVAS_HEIGHT * (4 # 10))%Q.
Definition NET_Y (CANVAS_HEIGHT : Q) : Q := (CANVAS_HEIGHT * (65 # 100))%Q.

Definition size_radius (s : Size) : Q :=
  match s with large => 190 | small => 130 end.

(** [Math.sqrt((x - target.x) ** 2)] is the absolute difference of the
    abscissae. *)
Definition spawn_distance (xn : Q) (t : Target) : Q := Qabs (xn - x t).

(** The body of the [for (const target of ...)] overlap check, with its
    [break] on the first overlap. *)
Definition validPosition (xn rn : Q) (ts : list Target) : bool :=
  forallb (fun t => negb (Qltb (spawn_distance xn t) (rn + radius t + 80))) ts.

(** Record updates on [gameRef.current]. *)
Definition with_targets (g : GameVars) (ts : list Target) : GameVars :=
  mkGameVars (score g) (timeLeft g) ts (feedback g) (sparkles g) (nextTargetId g)
    (perfectHits g) (totalHits g) (mousePos g) (reactionTimes g).

Section Environment.

(** [Math.random()]: the [k]-th draw of the session. *)
Variable Math_random : nat -> Q.

(** One iteration of the [while (!validPosition)] loop of [addNewTarget]
    from draw [k]: size, radius, abscissa and the next draw index. *)
Definition spawn_attempt (d : Difficulty) (CANVAS_WIDTH : Q) (k : nat) : Size * Q * Q * nat :=
  (* size: 'easy' short-circuits, no draw *)
  let '(sz, k1) :=
    match d with
    | easy => (large, k)
    | _ => (if Qltb (1 # 2) (Math_random k) then large else small, S k)
    end in
  let rn := size_radius sz in
  let xn := (Math_random k1 * (CANVAS_WIDTH - rn * 2) + rn)%Q in
  (sz, rn, xn, S k1).

(** The loop itself.  It has no bound in the source; [fuel] counts
    iterations, and [None] means the loop has not exited within [fuel]
    iterations. *)
Fixpoint spawn_loop (fuel : nat) (d : Difficulty) (ts : list Target)
    (CANVAS_WIDTH : Q) (k : nat) : option (Size * Q * Q * nat) :=
  match fuel with
  | O => None
  | S f =>
      let '(sz, rn, xn, k') := spawn_attempt d CANVAS_WIDTH k in
      if validPosition xn rn ts then Some (sz, rn, xn, k')
      else spawn_loop f d ts CANVAS_WIDTH k'
  end.

Definition addNewTarget (fuel : nat) (d : Difficulty) (CANVAS_WIDTH CANVAS_HEIGHT : Q)
    (now : Z) (g : GameVars) (k : nat) : option (GameVars * nat) :=
  match spawn_loop fuel d (targets g) CANVAS_WIDTH k with
  | None => None
  | Some (sz, rn, xn, k1) =>
      let '(vel, k2) :=
        match d with
        | hard => ((Math_random k1 * (3 # 2) + (1 # 2))%Q, S k1)
        | _ => (0%Q, k1)
        end in
      let dir := if Qltb (1 # 2) (Math_random k2) then 1%Q else (-1)%Q in
      let t := mkTarget (nextTargetId g) xn (TARGET_SPAWN_Y CANVAS_HEIGHT) rn sz vel dir now in
      Some (mkGameVars (score g) (timeLeft g) (targets g ++ [t]) (feedback g)
              (sparkles g) (nextTargetId g + 1) (perfectHits g) (totalHits g)
              (mousePos g) (reactionTimes g), S k2)
  end.

(** [initializeGame]: reset the variables and seed two targets. *)
Definition initializeGame (fuel : nat) (d : Difficulty) (W H : Q) (now : Z) (k : nat)
    : option (GameVars * nat) :=
  match addNewTarget fuel d W H now emptyGameVars k with
  | None => None
  | Some (g1, k1) => addNewTarget fuel d W H now g1 k1
  end.

End Environment.

(** ** [handleCanvasClick] *)

(** [Math.PI], the double nearest to pi, as an exact rational. *)
Definition Math_PI : Q := (884279719003555 # 281474976710656)%Q.

(** [targets.splice(i, 1)] *)
Definition remove_at {A} (i : nat) (l : list A) : list A := firstn i l ++ skipn (S i) l.

Section Resolution.

Variable Math_random : nat -> Q.
Variable Math_sqrt : Q -> Q.

Definition click_distance (clickX clickY : Q) (t : Target) : Q :=
  Math_sqrt ((clickX - x t) * (clickX - x t) + (clickY - y t) * (clickY - y t))%Q.

Definition hitsTarget (clickX clickY : Q) (t : Target) : bool :=
  Qleb (click_distance clickX clickY t) (radius t).

(** [for (let i = targets.length - 1; i >= 0; i--)], stopping at the first
    target that contains the click; call with [i = length ts]. *)
Fixpoint scan_targets (i : nat) (ts : list Target) (clickX clickY : Q) : option nat :=
  match i with
  | O => None
  | S j =>
      match nth_error ts j with
      | Some t => if hitsTarget clickX clickY t then Some j else scan_targets j ts clickX clickY
      | None => scan_targets j ts clickX clickY
      end
  end.

(** The [i]-th sparkle of the miss burst: [speed] is drawn before
    [rotation], so sparkle [i] uses draws [k + 2i] and [k + 2i + 1]. *)
Definition make_sparkle (clickX clickY : Q) (k i : nat) : Sparkle :=
  mkSparkle clickX clickY 1
    ((Z.of_nat i # 8) * Math_PI * 2)%Q
    (2 + Math_random (k + 2 * i) * 2)%Q
    (Math_random (k + 2 * i + 1) * Math_PI * 2)%Q.

Definition penalty (g : GameVars) (clickX clickY : Q) : GameVars :=
  mkGameVars (Z.max 0 (score g - 10)) (timeLeft g) (targets g)
    (feedback g ++ [mkFeedback clickX clickY "MISS" 0 1 None])
    (sparkles g) (nextTargetId g) (perfectHits g) (totalHits g)
    (mousePos g) (reactionTimes g).

Definition miss (g : GameVars) (clickX clickY : Q) (k : nat) : GameVars * nat :=
  (mkGameVars (score g) (timeLeft g) (targets g)
    (feedback g ++ [mkFeedback clickX clickY "MISS" 0 1 (Some true)])
    (sparkles g ++ map (make_sparkle clickX clickY k) (seq 0 8))
    (nextTargetId g) (perfectHits g) (totalHits g)
    (mousePos g) (reactionTimes g), (k + 16)%nat).

(** The state right after the hit on target [i] of the list, before the
    replacement is spawned. *)
Definition register_hit (g : GameVars) (i : nat) (t : Target) (clickX clickY : Q) (now : Z)
    : GameVars :=
  let '(pts, fbk) := calculatePoints (click_distance clickX clickY t) (radius t) in
  let reactionTime := if Z.eqb (createdAt t) 0 then 0 else now - createdAt t in
  mkGameVars (score g + pts) (timeLeft g) (remove_at i (targets g))
    (feedback g ++ [mkFeedback (x t) (y t) fbk pts 1 None])
    (sparkles g) (nextTargetId g)
    (if String.eqb fbk "PERFECT" then perfectHits g + 1 else perfectHits g)
    (totalHits g + 1) (mousePos g) (reactionTimes g ++ [reactionTime]).

(** [handleCanvasClick]; [difficulty] is the component state read by the
    argument-less [addNewTarget()].  [None] only when the replacement spawn
    does not exit within [fuel] iterations. *)
Definition handleCanvasClick (fuel : nat) (gameState : GameState) (difficulty : Difficulty)
    (CANVAS_WIDTH CANVAS_HEIGHT : Q) (now : Z) (clickX clickY : Q)
    (g : GameVars) (k : nat) : option (GameVars * nat) :=
  match gameState with
  | InGame =>
      if Qltb (NET_Y CANVAS_HEIGHT) clickY then Some (penalty g clickX clickY, k)
      else
        match scan_targets (List.length (targets g)) (targets g) clickX clickY with
        | Some i =>
            match nth_error (targets g) i with
            | Some t =>
                addNewTarget Math_random fuel difficulty CANVAS_WIDTH CANVAS_HEIGHT now
                  (register_hit g i t clickX clickY now) k
            | None => Some (g, k)
            end
        | None => Some (miss g clickX clickY k)
        end
  | _ => Some (g, k)
  end.

End Resolution.

(** ** The animation frame: [gameLoop] and the state updates of [draw] *)

Definition with_x_dir (t : Target) (nx nd : Q) : Target :=
  mkTarget (id t) nx (y t) (radius t) (size t) (velocity t) nd (createdAt t).

(** Hard-mode oscillation of [gameLoop]; [osc] is [Math.sin(time * 2) * 2]. *)
Definition oscillate (CANVAS_WIDTH osc : Q) (t : Target) : Target :=
  let nx := (x t + osc)%Q in
  with_x_dir t (Qmax (radius t) (Qmin (CANVAS_WIDTH - radius t) nx)) (direction t).

(** Drift and bounce of [draw]. *)
Definition move_target (CANVAS_WIDTH : Q) (t : Target) : Target :=
  if Qltb 0 (velocity t) then
    let nx := (x t + direction t * velocity t)%Q in
    let nd := if Qltb (nx - radius t) 0 then 1%Q
              else if Qltb CANVAS_WIDTH (nx + radius t) then (-1)%Q
              else direction t in
    with_x_dir t nx nd
  else t.

Fixpoint filter_some {A} (l : list (option A)) : list A :=
  match l with
  | [] => []
  | Some a :: r => a :: filter_some r
  | None :: r => filter_some r
  end.

Definition age_sparkle (s : Sparkle) : option Sparkle :=
  let l := (life s - (2 # 100))%Q in
  if Qleb l 0 then None
  else Some (mkSparkle (sp_x s) (sp_y s) l (angle s) (speed s) (rotation s + (15 # 100))).

Definition age_feedback (f : Feedback) : option Feedback :=
  let o := (opacity f - (2 # 100))%Q in
  if Qleb o 0 then None
  else Some (mkFeedback (fb_x f) (fb_y f) (text f) (points f) o (isMiss f)).

(** One call of [gameLoop]: [elapsed] is [(Date.now() - startTime) / 1000].
    The boolean is [true] when another frame is requested. *)
Definition gameLoop (difficulty : Difficulty) (CANVAS_WIDTH : Q) (elapsed osc : Q)
    (g : GameVars) : GameVars * bool :=
  let tl := Qmax 0 (60 - elapsed) in
  let ts1 := match difficulty with
             | hard => map (oscillate CANVAS_WIDTH osc) (targets g)
             | _ => targets g
             end in
  let ts2 := map (move_target CANVAS_WIDTH) ts1 in
  (mkGameVars (score g) tl ts2
     (filter_some (map age_feedback (feedback g)))
     (filter_some (map age_sparkle (sparkles g)))
     (nextTargetId g) (perfectHits g) (totalHits g) (mousePos g) (reactionTimes g),
   Qltb 0 tl).

Definition sum_reaction (rt : list Z) : Z := fold_left Z.add rt 0.

Definition avgReactionTime (rt : list Z) : Q :=
  if Nat.ltb 0 (List.length rt)
  then (inject_Z (sum_reaction rt) / inject_Z (Z.of_nat (List.length rt)))%Q
  else 0%Q.

Definition makeStats (g : GameVars) (difficulty : Difficulty) : GameStats :=
  mkGameStats (score g) (perfectHits g) (totalHits g) (reactionTimes g)
    (avgReactionTime (reactionTimes g)) difficulty.

(** A run of frames of one session, [(elapsed, osc)] per frame, until the
    loop stops requesting frames: the remaining time of each processed frame,
    and the statistics when the session ended. *)
Fixpoint run_frames (difficulty : Difficulty) (CANVAS_WIDTH : Q) (frames : list (Q * Q))
    (g : GameVars) : list Q * option GameStats :=
  match frames with
  | [] => ([], None)
  | (e, osc) :: rest =>
      let '(g', again) := gameLoop difficulty CANVAS_WIDTH e osc g in
      if again then
        let '(tls, st) := run_frames difficulty CANVAS_WIDTH rest g' in (timeLeft g' :: tls, st)
      else ([timeLeft g'], Some (makeStats g' difficulty))
  end.

(** ** The component as a state machine *)

Record App := mkApp {
  gameState : GameState;
  difficulty : Difficulty;
  game : GameVars;
  rng : nat;
  gameStats : option GameStats
}.

Definition initialApp : App := mkApp Menu easy emptyGameVars 0 None.

Section Steps.

Variable Math_random : nat -> Q.
Variable Math_sqrt : Q -> Q.

(** Every event the component reacts to; the canvas size, the clock and
    the spawn loop's iteration budget are arbitrary at each event. *)
Inductive step : App -> App -> Prop :=
  | step_start : forall s d fuel W H now g k,
      gameState s <> InGame ->
      initializeGame Math_random fuel d W H now (rng s) = Some (g, k) ->
      step s (mkApp InGame d g k (gameStats s))
  | step_click : forall s fuel W H now cx cy g k,
      handleCanvasClick Math_random Math_sqrt fuel (gameState s) (difficulty s)
        W H now cx cy (game s) (rng s) = Some (g, k) ->
      step s (mkApp (gameState s) (difficulty s) g k (gameStats s))
  | step_frame : forall s W e osc g,
      gameState s = InGame ->
      gameLoop (difficulty s) W e osc (game s) = (g, true) ->
      step s (mkApp InGame (difficulty s) g (rng s) (gameStats s))
  | step_frame_end : forall s W e osc g,
      gameState s = InGame ->
      gameLoop (difficulty s) W e osc (game s) = (g, false) ->
      step s (mkApp End (difficulty s) g (rng s) (Some (makeStats g (difficulty s))))
  | step_menu : forall s,
      gameState s = End ->
      step s (mkApp Menu (difficulty s) (game s) (rng s) (gameStats s)).

Inductive reachable : App -> Prop :=
  | reach_init : reachable initialApp
  | reach_step : forall s s', reachable s -> step s s' -> reachable s'.

End Steps.

Definition rand_zero (_ : nat) : Q := 0%Q.
(** A square root on rationals, exact on [(a*a) # (b*b)]: used to run
    the click resolution on concrete inputs. *)
Definition sqrt_model (q : Q) : Q := (Z.sqrt (Qnum q * Zpos (Qden q)) # Qden q)%Q.

Example sqrt_model_25 : sqrt_model (3 * 3 + 4 * 4) = 5%Q.
Proof. reflexivity. Qed.

Definition rand_cycle (k : nat) : Q := (Z.of_nat (Nat.modulo (k * 7) 10) # 10)%Q.

Example initializeGame_easy_1920 :
  option_map (fun '(g, _) => map (fun t => Qred (x t)) (targets g))
    (initializeGame rand_cycle 10 easy 1920 1080 5 0) = Some [190%Q; 806%Q].
Proof. vm_compute. reflexivity. Qed.

Example run_frames_stops :
  let '(tls, st) := run_frames easy 1920 [(10, 0); (30, 0); (61, 0); (70, 0)]%Q emptyGameVars in
  (List.length tls, option_map totalHits_st st) = (3%nat, Some 0).
Proof. reflexivity. Qed.

(** ** Comparison lemmas *)

Lemma Qltb_spec (a b : Q) : Qltb a b = true <-> (a < b)%Q.
Proof.
  unfold Qltb. rewrite Bool.negb_true_iff. split; intro H.
  - apply Qnot_le_lt. intro H'. apply Qle_bool_iff in H'. congruence.
  - destruct (Qle_bool b a) eqn:E; [|reflexivity].
    apply Qle_bool_iff in E. exfalso. apply (Qlt_not_le a b); assumption.
Qed.

Lemma Qltb_false (a b : Q) : Qltb a b = false <-> (b <= a)%Q.
Proof.
  unfold Qltb. rewrite Bool.negb_false_iff. apply Qle_bool_iff.
Qed.

Lemma Qleb_spec (a b : Q) : Qleb a b = true <-> (a <= b)%Q.
Proof. apply Qle_bool_iff. Qed.

Lemma accuracy_bounds (d r : Q) :
  (0 < r)%Q -> (0 <= d <= r)%Q -> (0 <= 1 - d / r <= 1)%Q.
Proof.
  intros Hr [Hd0 Hdr].
  assert (H1 : (d / r <= 1)%Q) by (apply Qle_shift_div_r; [assumption | lra]).
  assert (H0 : (0 <= d / r)%Q) by (apply Qle_shift_div_l; [assumption | lra]).
  lra.
Qed.

(** ** Claims about scoring *)

(** C1: for a hit (distance [d] with [0 <= d <= radius]) the accuracy is
    [1 - d/radius]; above 0.95 the hit is PERFECT worth 100 points, otherwise
    it is worth [floor(accuracy * 100)] points labelled ["+<points>"]; the
    centre gives PERFECT/100 and the rim gives 0 points labelled ["+0"]. *)
Theorem calculatePoints_hit (d r : Q) :
  (0 < r)%Q -> (0 <= d <= r)%Q ->
  let accuracy := (1 - d / r)%Q in
  (Qlt (95 # 100) accuracy -> calculatePoints d r = (100, "PERFECT"%string)) /\
  (Qle accuracy (95 # 100) ->
     calculatePoints d r =
       (Qfloor (accuracy * 100)%Q, ("+" ++ string_of_Z (Qfloor (accuracy * 100)%Q))%string)) /\
  calculatePoints 0 r = (100, "PERFECT"%string) /\
  calculatePoints r r = (0, "+0"%string).
Proof.
  intros Hr Hd accuracy. unfold calculatePoints. fold accuracy.
  split; [|split; [|split]].
  - intro H. apply Qltb_spec in H. rewrite H. reflexivity.
  - intro H. apply Qltb_false in H. rewrite H. reflexivity.
  - assert (E : (1 - 0 / r == 1)%Q) by (unfold Qdiv; rewrite Qmult_0_l; ring).
    assert (Hp : Qltb (95 # 100) (1 - 0 / r) = true).
    { apply Qltb_spec. rewrite E. reflexivity. }
    rewrite Hp. reflexivity.
  - assert (E : (1 - r / r == 0)%Q).
    { unfold Qdiv. rewrite Qmult_inv_r; [ring | intro Hz; rewrite Hz in Hr; discriminate]. }
    assert (Hp : Qltb (95 # 100) (1 - r / r) = false).
    { apply Qltb_false. rewrite E. discriminate. }
    rewrite Hp.
    assert (Ef : Qfloor ((1 - r / r) * 100) = 0).
    { rewrite (Qfloor_comp _ 0); [reflexivity | rewrite E; reflexivity]. }
    rewrite Ef. reflexivity.
Qed.

Lemma calculatePoints_hit_witness :
  ((0 < 190)%Q /\ (0 <= 95 <= 190)%Q) /\ calculatePoints 0 190 = (100, "PERFECT"%string).
Proof.
  assert (Hr : (0 < 190)%Q) by reflexivity.
  assert (Hd : (0 <= 95 <= 190)%Q) by (split; vm_compute; discriminate).
  split; [split; assumption |].
  exact (proj1 (proj2 (proj2 (calculatePoints_hit 95 190 Hr Hd)))).
Defined.

(** C10: a hit is worth exactly 100 points or between 0 and 95 points;
    96 to 99 points are never awarded. *)
Theorem calculatePoints_range (d r : Q) :
  (0 < r)%Q -> (0 <= d <= r)%Q ->
  let p := fst (calculatePoints d r) in
  (p = 100 \/ 0 <= p <= 95) /\ ~ (96 <= p <= 99).
Proof.
  intros Hr Hd p.
  assert (Hb := accuracy_bounds d r Hr Hd).
  assert (Hp : p = 100 \/ 0 <= p <= 95).
  { unfold p, calculatePoints.
    destruct (Qltb (95 # 100) (1 - d / r)) eqn:E.
    - left. reflexivity.
    - right. apply Qltb_false in E. cbn beta zeta iota delta [fst]. split.
      + rewrite <- (Qfloor_Z 0). apply Qfloor_resp_le.
        unfold inject_Z. lra.
      + rewrite <- (Qfloor_Z 95). apply Qfloor_resp_le.
        unfold inject_Z. lra. }
  split; [exact Hp | lia].
Qed.

Lemma calculatePoints_range_witness :
  ((0 < 190)%Q /\ (0 <= 57 <= 190)%Q) /\
  ((fst (calculatePoints 57 190) = 100 \/ 0 <= fst (calculatePoints 57 190) <= 95) /\
   ~ (96 <= fst (calculatePoints 57 190) <= 99)).
Proof.
  assert (Hr : (0 < 190)%Q) by reflexivity.
  assert (Hd : (0 <= 57 <= 190)%Q) by (split; vm_compute; discriminate).
  split; [split; assumption |].
  exact (calculatePoints_range 57 190 Hr Hd).
Defined.

(** ** Claims about click resolution *)

(** C2: a click in the penalty zone ([clickY > NET_Y]) of an active
    session subtracts 10 points clamped at 0, records a zero-point MISS
    feedback at the click position, and registers no hit: targets, counters
    and reaction times are untouched, whatever the targets' positions. *)
Theorem penalty_zone_click (rnd : nat -> Q) (sqrt : Q -> Q) (fuel : nat) (d : Difficulty)
    (W H : Q) (now : Z) (cx cy : Q) (g : GameVars) (k : nat) :
  Qlt (NET_Y H) cy ->
  exists g',
    handleCanvasClick rnd sqrt fuel InGame d W H now cx cy g k = Some (g', k) /\
    score g' = Z.max 0 (score g - 10) /\ 0 <= score g' /\
    feedback g' = feedback g ++ [mkFeedback cx cy "MISS" 0 1 None] /\
    targets g' = targets g /\ sparkles g' = sparkles g /\
    totalHits g' = totalHits g /\ perfectHits g' = perfectHits g /\
    reactionTimes g' = reactionTimes g.
Proof.
  intro Hy. exists (penalty g cx cy).
  unfold handleCanvasClick.
  apply Qltb_spec in Hy. rewrite Hy.
  repeat split; try reflexivity. simpl. lia.
Qed.

Lemma penalty_zone_click_witness :
  Qlt (NET_Y 1000) 700 /\
  exists g',
    handleCanvasClick rand_zero (fun q => q) 10 InGame easy 1920 1000 5 300 700
      (mkGameVars 4 60 [mkTarget 0 300 700 190 large 0 1 5] [] [] 1 0 0 (0%Q, 0%Q) []) 0
      = Some (g', 0%nat) /\
    score g' = Z.max 0 (4 - 10) /\ 0 <= score g' /\
    feedback g' = [] ++ [mkFeedback 300 700 "MISS" 0 1 None] /\
    targets g' = [mkTarget 0 300 700 190 large 0 1 5] /\ sparkles g' = [] /\
    totalHits g' = 0 /\ perfectHits g' = 0 /\ reactionTimes g' = [].
Proof.
  assert (Hy : Qlt (NET_Y 1000) 700) by reflexivity.
  split; [exact Hy |].
  exact (penalty_zone_click rand_zero (fun q => q) 10 easy 1920 1000 5 300 700
      (mkGameVars 4 60 [mkTarget 0 300 700 190 large 0 1 5] [] [] 1 0 0 (0%Q, 0%Q) []) 0 Hy).
Defined.

Lemma scan_targets_none (sqrt : Q -> Q) (ts : list Target) (cx cy : Q) (i : nat) :
  (forall t, In t ts -> hitsTarget sqrt cx cy t = false) ->
  scan_targets sqrt i ts cx cy = None.
Proof.
  intro Hout. induction i as [|j IH]; simpl; [reflexivity |].
  destruct (nth_error ts j) as [t|] eqn:E; [|exact IH].
  rewrite (Hout t (nth_error_In _ _ E)). exact IH.
Qed.

(** The emission angles [0, 2pi/8, ..., 14pi/8] with [pi] = [Math.PI]. *)
Definition burst_angles : list Q :=
  map (fun n => (inject_Z (2 * n) * Math_PI / 8)%Q) [0; 1; 2; 3; 4; 5; 6; 7].

(** C6: a click outside the penalty zone and outside every target adds
    exactly 8 sparkles at the click position with angles
    [0, 2pi/8, ..., 14pi/8] and speeds in [[2, 4)], and one zero-point
    MISS feedback flagged as a miss; score, targets and hit counters are
    unchanged. *)
Theorem miss_click_sparkles (rnd : nat -> Q) (sqrt : Q -> Q) (fuel : nat) (d : Difficulty)
    (W H : Q) (now : Z) (cx cy : Q) (g : GameVars) (k : nat) :
  (forall n, 0 <= rnd n < 1)%Q ->
  Qle cy (NET_Y H) ->
  (forall t, In t (targets g) -> hitsTarget sqrt cx cy t = false) ->
  exists g' k' burst,
    handleCanvasClick rnd sqrt fuel InGame d W H now cx cy g k = Some (g', k') /\
    sparkles g' = sparkles g ++ burst /\
    List.length burst = 8%nat /\
    Forall2 Qeq (map angle burst) burst_angles /\
    Forall (fun s => sp_x s = cx /\ sp_y s = cy /\ 2 <= speed s < 4)%Q burst /\
    feedback g' = feedback g ++ [mkFeedback cx cy "MISS" 0 1 (Some true)] /\
    score g' = score g /\ targets g' = targets g /\
    totalHits g' = totalHits g /\ perfectHits g' = perfectHits g /\
    reactionTimes g' = reactionTimes g.
Proof.
  intros Hr Hy Hout.
  exists (fst (miss rnd g cx cy k)), (snd (miss rnd g cx cy k)),
         (map (make_sparkle rnd cx cy k) (seq 0 8)).
  unfold handleCanvasClick.
  assert (Hn : Qltb (NET_Y H) cy = false) by (apply Qltb_false; exact Hy).
  rewrite Hn, (scan_targets_none sqrt (targets g) cx cy _ Hout).
  split; [reflexivity |]. split; [reflexivity |]. split; [reflexivity |].
  split.
  - unfold burst_angles. simpl.
    repeat constructor.
  - split; [| repeat split; reflexivity].
    apply Forall_forall. intros s Hs. apply in_map_iff in Hs.
    destruct Hs as [i [<- _]]. unfold make_sparkle. cbn [speed sp_x sp_y].
    specialize (Hr (k + 2 * i)%nat).
    split; [reflexivity | split; [reflexivity |]]. idtac.
    destruct Hr as [Hr0 Hr1]. split.
    + lra.
    + lra.
Qed.

Lemma miss_click_sparkles_witness :
  (forall n, 0 <= rand_zero n < 1)%Q /\ Qle 300 (NET_Y 1000) /\
  exists g' k' burst,
    handleCanvasClick rand_zero sqrt_model 10 InGame easy 1920 1000 5 300 300
      (mkGameVars 4 60 [mkTarget 0 900 400 190 large 0 1 5] [] [] 1 0 0 (0%Q, 0%Q) []) 0
      = Some (g', k') /\
    sparkles g' = [] ++ burst /\ List.length burst = 8%nat /\
    Forall2 Qeq (map angle burst) burst_angles /\
    Forall (fun s => sp_x s = 300 /\ sp_y s = 300 /\ 2 <= speed s < 4)%Q burst /\
    feedback g' = [] ++ [mkFeedback 300 300 "MISS" 0 1 (Some true)] /\
    score g' = 4 /\ targets g' = [mkTarget 0 900 400 190 large 0 1 5] /\
    totalHits g' = 0 /\ perfectHits g' = 0 /\ reactionTimes g' = [].
Proof.
  assert (Hr : (forall n, 0 <= rand_zero n < 1)%Q).
  { intro n. split; vm_compute; [discriminate | reflexivity]. }
  assert (Hy : Qle 300 (NET_Y 1000)) by (vm_compute; discriminate).
  assert (Ho : forall t, In t [mkTarget 0 900 400 190 large 0 1 5] ->
                 hitsTarget sqrt_model 300 300 t = false).
  { intros t [<- | []]. vm_compute. reflexivity. }
  split; [exact Hr | split; [exact Hy |]].
  exact (miss_click_sparkles rand_zero sqrt_model 10 easy 1920 1000 5 300 300
      (mkGameVars 4 60 [mkTarget 0 900 400 190 large 0 1 5] [] [] 1 0 0 (0%Q, 0%Q) []) 0
      Hr Hy Ho).
Defined.

(** ** Claims about spawning *)

Lemma spawn_loop_exit (rnd : nat -> Q) (fuel : nat) (d : Difficulty) (ts : list Target)
    (W : Q) (k : nat) sz rn xn k' :
  spawn_loop rnd fuel d ts W k = Some (sz, rn, xn, k') ->
  validPosition xn rn ts = true /\ rn = size_radius sz /\
  exists j, spawn_attempt rnd d W j = (sz, rn, xn, k').
Proof.
  revert k. induction fuel as [|f IH]; intros k E; simpl in E; [discriminate |].
  destruct (spawn_attempt rnd d W k) as [[[sz0 rn0] xn0] k0] eqn:A.
  destruct (validPosition xn0 rn0 ts) eqn:V.
  - injection E as <- <- <- <-. split; [exact V | split].
    + unfold spawn_attempt in A. destruct d;
        [| destruct (Qltb (1 # 2) (rnd k)) ..]; injection A; intros; subst; reflexivity.
    + exists k. exact A.
  - exact (IH k0 E).
Qed.

Lemma spawn_loop_all_invalid (rnd : nat -> Q) (d : Difficulty) (ts : list Target) (W : Q) :
  (forall j, let '(_, rn, xn, _) := spawn_attempt rnd d W j in validPosition xn rn ts = false) ->
  forall fuel k, spawn_loop rnd fuel d ts W k = None.
Proof.
  intros Hinv fuel. induction fuel as [|f IH]; intro k; simpl; [reflexivity |].
  specialize (Hinv k).
  destruct (spawn_attempt rnd d W k) as [[[sz0 rn0] xn0] k0].
  rewrite Hinv. apply IH.
Qed.

Lemma validPosition_sep (xn rn : Q) (ts : list Target) :
  validPosition xn rn ts = true ->
  forall t, In t ts -> Qle (rn + radius t + 80) (Qabs (xn - x t)).
Proof.
  unfold validPosition. rewrite forallb_forall. intros H t Ht.
  specialize (H t Ht). apply Bool.negb_true_iff, Qltb_false in H. exact H.
Qed.

Lemma sq_le_of_abs_le (s dx dy : Q) :
  Qle 0 s -> Qle s (Qabs dx) -> Qle (s * s) (dx * dx + dy * dy).
Proof.
  intros H0 H1.
  destruct (Qlt_le_dec dx 0) as [Hn | Hp].
  - rewrite Qabs_neg in H1 by lra. nra.
  - rewrite Qabs_pos in H1 by lra. nra.
Qed.

(** What a spawn that exits does to the variables. *)
Lemma addNewTarget_spec (rnd : nat -> Q) (fuel : nat) (d : Difficulty) (W H : Q) (now : Z)
    (g : GameVars) (k : nat) g' k' :
  addNewTarget rnd fuel d W H now g k = Some (g', k') ->
  exists t j,
    targets g' = targets g ++ [t] /\
    validPosition (x t) (radius t) (targets g) = true /\
    radius t = size_radius (size t) /\ y t = TARGET_SPAWN_Y H /\
    (velocity t = match d with hard => (rnd j * (3 # 2) + (1 # 2))%Q | _ => 0%Q end) /\
    (direction t = 1%Q \/ direction t = (-1)%Q) /\
    score g' = score g /\ totalHits g' = totalHits g /\ perfectHits g' = perfectHits g /\
    reactionTimes g' = reactionTimes g.
Proof.
  unfold addNewTarget. intro E.
  destruct (spawn_loop rnd fuel d (targets g) W k) as [[[[sz rn] xn] k1]|] eqn:L;
    [| discriminate].
  destruct (spawn_loop_exit rnd fuel d (targets g) W k sz rn xn k1 L) as [V [R _]].
  destruct d; injection E as <- <-;
    eexists; exists k1; cbn [targets radius size y velocity direction x score totalHits
                             perfectHits reactionTimes];
    (split; [reflexivity | split; [exact V | split; [exact R | split; [reflexivity |]]]]);
    (split; [reflexivity |]);
    (split; [destruct (Qltb (1 # 2) _); [left | right]; reflexivity |]);
    repeat split.
Qed.

(** C3 (as stated, refuted): spawning does not always terminate.  On a
    360-unit wide canvas (a phone screen) in easy mode the first target sits
    at [x = 190] and every candidate for the second lies within 20 units of
    it, so for the all-zero random stream no number of iterations lets
    [initializeGame] finish. *)
Lemma spawn_not_terminating :
  ~ (exists fuel, initializeGame rand_zero fuel easy 360 640 5 0 <> None).
Proof.
  intros [fuel Hf]. apply Hf. unfold initializeGame.
  destruct fuel as [|f]; [reflexivity |].
  change (addNewTarget rand_zero (S f) easy 360 640 5 emptyGameVars 0)
    with (Some (mkGameVars 0 60 [mkTarget 0 (rand_zero 0 * (360 - 190 * 2) + 190)
                 (TARGET_SPAWN_Y 640) 190 large 0 (-1) 5] [] [] 1 0 0 (0%Q, 0%Q) [], 2%nat)).
  unfold addNewTarget.
  rewrite (spawn_loop_all_invalid rand_zero easy _ 360); [reflexivity |].
  intro j. vm_compute. reflexivity.
Qed.

(** C3 (amended): the overlap-rejection loop has no retry bound and no
    fallback: whenever no candidate it can sample passes the overlap check,
    it never exits, for any number of iterations. *)
Theorem spawn_loop_unbounded (rnd : nat -> Q) (d : Difficulty) (ts : list Target) (W : Q) :
  (forall j, let '(_, rn, xn, _) := spawn_attempt rnd d W j in validPosition xn rn ts = false) ->
  forall fuel k, spawn_loop rnd fuel d ts W k = None.
Proof. exact (spawn_loop_all_invalid rnd d ts W). Qed.

Lemma spawn_loop_unbounded_witness :
  (forall j, let '(_, rn, xn, _) := spawn_attempt rand_zero easy 360 j in
             validPosition xn rn [mkTarget 0 190 256 190 large 0 1 5] = false) /\
  spawn_loop rand_zero 1000 easy [mkTarget 0 190 256 190 large 0 1 5] 360 0 = None.
Proof.
  assert (Hj : forall j, let '(_, rn, xn, _) := spawn_attempt rand_zero easy 360 j in
             validPosition xn rn [mkTarget 0 190 256 190 large 0 1 5] = false).
  { intro j. vm_compute. reflexivity. }
  split; [exact Hj |].
  exact (spawn_loop_unbounded rand_zero easy _ 360 Hj 1000 0).
Defined.

(** C5: when a target is spawned, its centre is at Euclidean distance at
    least the sum of the two radii plus 80 from the centre of every target
    then live (stated on squares: [(r + r' + 80)^2 <= dx^2 + dy^2]). *)
Theorem spawn_separation (rnd : nat -> Q) (fuel : nat) (d : Difficulty) (W H : Q) (now : Z)
    (g : GameVars) (k : nat) g' k' :
  Forall (fun t => Qle 0 (radius t)) (targets g) ->
  addNewTarget rnd fuel d W H now g k = Some (g', k') ->
  exists t, targets g' = targets g ++ [t] /\
    forall t', In t' (targets g) ->
      Qle ((radius t + radius t' + 80) * (radius t + radius t' + 80))
          ((x t - x t') * (x t - x t') + (y t - y t') * (y t - y t')).
Proof.
  intros Hpos E.
  destruct (addNewTarget_spec rnd fuel d W H now g k g' k' E)
    as [t [j [Ht [V [R _]]]]].
  exists t. split; [exact Ht |]. intros t' Hin.
  apply sq_le_of_abs_le.
  - rewrite Forall_forall in Hpos. specialize (Hpos t' Hin).
    rewrite R. destruct (size t); simpl; lra.
  - exact (validPosition_sep _ _ _ V t' Hin).
Qed.

Definition one_target_game : GameVars :=
  mkGameVars 0 60 [mkTarget 0 190 432 190 large 0 1 5] [] [] 1 0 0 (0%Q, 0%Q) [].

Lemma spawn_separation_witness :
  exists g' k',
    Forall (fun t => Qle 0 (radius t)) (targets one_target_game) /\
    addNewTarget rand_cycle 10 easy 1920 1080 7 one_target_game 0 = Some (g', k') /\
    exists t, targets g' = targets one_target_game ++ [t] /\
      forall t', In t' (targets one_target_game) ->
        Qle ((radius t + radius t' + 80) * (radius t + radius t' + 80))
            ((x t - x t') * (x t - x t') + (y t - y t') * (y t - y t')).
Proof.
  destruct (addNewTarget rand_cycle 10 easy 1920 1080 7 one_target_game 0)
    as [[g' k']|] eqn:E; [| vm_compute in E; discriminate].
  assert (Hp : Forall (fun t => Qle 0 (radius t)) (targets one_target_game)).
  { constructor; [vm_compute; discriminate | constructor]. }
  exists g', k'. split; [exact Hp | split; [reflexivity |]].
  exact (spawn_separation rand_cycle 10 easy 1920 1080 7 one_target_game 0 g' k' Hp E).
Defined.

(** C9: a spawned target has velocity 0 unless the difficulty is hard; in
    hard mode its velocity lies in [[0.5, 2.0)]; its direction is 1 or -1. *)
Theorem spawn_velocity (rnd : nat -> Q) (fuel : nat) (d : Difficulty) (W H : Q) (now : Z)
    (g : GameVars) (k : nat) g' k' :
  (forall n, 0 <= rnd n < 1)%Q ->
  addNewTarget rnd fuel d W H now g k = Some (g', k') ->
  exists t, targets g' = targets g ++ [t] /\
    (d <> hard -> velocity t = 0%Q) /\
    (d = hard -> (1 # 2 <= velocity t < 2)%Q) /\
    (direction t = 1%Q \/ direction t = (-1)%Q).
Proof.
  intros Hr E.
  destruct (addNewTarget_spec rnd fuel d W H now g k g' k' E)
    as [t [j [Ht [_ [_ [_ [Hv [Hd _]]]]]]]].
  exists t. split; [exact Ht |]. split; [| split; [| exact Hd]].
  - intro Hn. rewrite Hv. destruct d; [reflexivity | reflexivity | congruence].
  - intros ->. rewrite Hv. specialize (Hr j). split; lra.
Qed.

Lemma spawn_velocity_witness :
  exists g' k',
    (forall n, 0 <= rand_cycle n < 1)%Q /\
    addNewTarget rand_cycle 10 hard 1920 1080 7 one_target_game 0 = Some (g', k') /\
    exists t, targets g' = targets one_target_game ++ [t] /\
      (hard <> hard -> velocity t = 0%Q) /\
      (hard = hard -> (1 # 2 <= velocity t < 2)%Q) /\
      (direction t = 1%Q \/ direction t = (-1)%Q).
Proof.
  destruct (addNewTarget rand_cycle 10 hard 1920 1080 7 one_target_game 0)
    as [[g' k']|] eqn:E; [| vm_compute in E; discriminate].
  assert (Hr : (forall n, 0 <= rand_cycle n < 1)%Q).
  { intro n. unfold rand_cycle.
    assert (Hm : (Nat.modulo (n * 7) 10 < 10)%nat) by (apply Nat.mod_upper_bound; lia).
    generalize dependent (Nat.modulo (n * 7) 10). intros m Hm.
    unfold Qle, Qlt; cbn [Qnum Qden]; split; lia. }
  exists g', k'. split; [exact Hr | split; [reflexivity |]].
  exact (spawn_velocity rand_cycle 10 hard 1920 1080 7 one_target_game 0 g' k' Hr E).
Defined.

(** ** Session invariants *)

Lemma remove_at_length {A} (i : nat) (l : list A) :
  (i < List.length l)%nat -> List.length (remove_at i l) = pred (List.length l).
Proof.
  intro Hi. unfold remove_at. rewrite length_app, length_firstn, length_skipn. lia.
Qed.

Lemma addNewTarget_length (rnd : nat -> Q) fuel d W H now g k g' k' :
  addNewTarget rnd fuel d W H now g k = Some (g', k') ->
  List.length (targets g') = S (List.length (targets g)).
Proof.
  intro E. destruct (addNewTarget_spec rnd fuel d W H now g k g' k' E) as [t [j [Ht _]]].
  rewrite Ht, length_app. simpl. lia.
Qed.

Lemma addNewTarget_hits (rnd : nat -> Q) fuel d W H now g k g' k' :
  addNewTarget rnd fuel d W H now g k = Some (g', k') ->
  totalHits g' = totalHits g /\ reactionTimes g' = reactionTimes g.
Proof.
  intro E. destruct (addNewTarget_spec rnd fuel d W H now g k g' k' E)
    as [t [j [_ [_ [_ [_ [_ [_ [_ [Hh [_ Hr]]]]]]]]]]].
  split; assumption.
Qed.

Lemma initializeGame_length (rnd : nat -> Q) fuel d W H now k g k' :
  initializeGame rnd fuel d W H now k = Some (g, k') ->
  List.length (targets g) = 2%nat.
Proof.
  unfold initializeGame. intro E.
  destruct (addNewTarget rnd fuel d W H now emptyGameVars k) as [[g1 k1]|] eqn:E1;
    [| discriminate].
  rewrite (addNewTarget_length _ _ _ _ _ _ _ _ _ _ E),
          (addNewTarget_length _ _ _ _ _ _ _ _ _ _ E1).
  reflexivity.
Qed.

Lemma initializeGame_hits (rnd : nat -> Q) fuel d W H now k g k' :
  initializeGame rnd fuel d W H now k = Some (g, k') ->
  totalHits g = 0 /\ reactionTimes g = [].
Proof.
  unfold initializeGame. intro E.
  destruct (addNewTarget rnd fuel d W H now emptyGameVars k) as [[g1 k1]|] eqn:E1;
    [| discriminate].
  destruct (addNewTarget_hits _ _ _ _ _ _ _ _ _ _ E) as [-> ->].
  destruct (addNewTarget_hits _ _ _ _ _ _ _ _ _ _ E1) as [-> ->].
  split; reflexivity.
Qed.

Lemma scan_targets_lt (sqrt : Q -> Q) (ts : list Target) (cx cy : Q) (n i : nat) :
  scan_targets sqrt n ts cx cy = Some i -> (i < n)%nat.
Proof.
  induction n as [|j IH]; simpl; [discriminate |].
  destruct (nth_error ts j) as [t|];
    [destruct (hitsTarget sqrt cx cy t); [intro E; injection E; lia |] |];
    intro E; specialize (IH E); lia.
Qed.

(** The outcome of a click, by case. *)
Lemma handleCanvasClick_cases (rnd : nat -> Q) (sqrt : Q -> Q) fuel gs d W H now cx cy
    g k g' k' :
  handleCanvasClick rnd sqrt fuel gs d W H now cx cy g k = Some (g', k') ->
  (g' = g) \/ (g' = penalty g cx cy) \/ (g' = fst (miss rnd g cx cy k)) \/
  (exists i t, nth_error (targets g) i = Some t /\
     addNewTarget rnd fuel d W H now (register_hit sqrt g i t cx cy now) k = Some (g', k')).
Proof.
  unfold handleCanvasClick. intro E.
  destruct gs; try (injection E as <- _; left; reflexivity).
  destruct (Qltb (NET_Y H) cy); [injection E as <- _; right; left; reflexivity |].
  destruct (scan_targets sqrt (List.length (targets g)) (targets g) cx cy) as [i|];
    [| injection E as <- _; right; right; left; reflexivity].
  destruct (nth_error (targets g) i) as [t|] eqn:Nt; [| injection E as <- _; left; reflexivity].
  right; right; right. exists i, t. split; assumption.
Qed.

Lemma handleCanvasClick_length (rnd : nat -> Q) (sqrt : Q -> Q) fuel gs d W H now cx cy
    g k g' k' :
  handleCanvasClick rnd sqrt fuel gs d W H now cx cy g k = Some (g', k') ->
  List.length (targets g') = List.length (targets g).
Proof.
  intro E.
  destruct (handleCanvasClick_cases rnd sqrt fuel gs d W H now cx cy g k g' k' E)
    as [-> | [-> | [-> | [i [t [Nt A]]]]]]; try reflexivity.
  rewrite (addNewTarget_length _ _ _ _ _ _ _ _ _ _ A).
  unfold register_hit. destruct (calculatePoints _ _). cbn [targets].
  assert (Hi : (i < List.length (targets g))%nat)
    by (apply nth_error_Some; rewrite Nt; discriminate).
  rewrite remove_at_length by exact Hi. lia.
Qed.

Lemma handleCanvasClick_hits (rnd : nat -> Q) (sqrt : Q -> Q) fuel gs d W H now cx cy
    g k g' k' :
  handleCanvasClick rnd sqrt fuel gs d W H now cx cy g k = Some (g', k') ->
  Z.of_nat (List.length (reactionTimes g)) = totalHits g ->
  Z.of_nat (List.length (reactionTimes g')) = totalHits g'.
Proof.
  intros E Inv.
  destruct (handleCanvasClick_cases rnd sqrt fuel gs d W H now cx cy g k g' k' E)
    as [-> | [-> | [-> | [i [t [Nt A]]]]]]; try exact Inv.
  destruct (addNewTarget_hits _ _ _ _ _ _ _ _ _ _ A) as [-> ->].
  unfold register_hit. destruct (calculatePoints _ _). cbn [reactionTimes totalHits].
  rewrite length_app. simpl. lia.
Qed.

Lemma gameLoop_targets_length d W e osc g g' b :
  gameLoop d W e osc g = (g', b) ->
  List.length (targets g') = List.length (targets g).
Proof.
  unfold gameLoop. intro E. injection E as <- _. cbn [targets].
  rewrite length_map. destruct d; try reflexivity. apply length_map.
Qed.

Lemma gameLoop_hits d W e osc g g' b :
  gameLoop d W e osc g = (g', b) ->
  totalHits g' = totalHits g /\ reactionTimes g' = reactionTimes g /\
  timeLeft g' = Qmax 0 (60 - e) /\ b = Qltb 0 (Qmax 0 (60 - e)).
Proof.
  unfold gameLoop. intro E. injection E as <- <-. repeat split.
Qed.

Lemma reachable_targets_two (rnd : nat -> Q) (sqrt : Q -> Q) (s : App) :
  reachable rnd sqrt s ->
  gameState s = InGame -> List.length (targets (game s)) = 2%nat.
Proof.
  induction 1 as [|s s' R IH St]; [discriminate |].
  destruct St as [s d fuel W H now g k Hs Hi
                 | s fuel W H now cx cy g k Hc
                 | s W e osc g Hs Hl
                 | s W e osc g Hs Hl
                 | s Hs]; cbn [gameState game]; intro Hg.
  - exact (initializeGame_length _ _ _ _ _ _ _ _ _ Hi).
  - rewrite (handleCanvasClick_length _ _ _ _ _ _ _ _ _ _ _ _ _ _ Hc). exact (IH Hg).
  - rewrite (gameLoop_targets_length _ _ _ _ _ _ _ Hl). exact (IH Hs).
  - discriminate.
  - discriminate.
Qed.

(** C4: in every reachable state of an active session there are exactly
    two live targets: [initializeGame] seeds two, a hit removes one and
    spawns one, and nothing else changes the count. *)
Theorem target_count_invariant (rnd : nat -> Q) (sqrt : Q -> Q) (s : App) :
  reachable rnd sqrt s -> gameState s = InGame ->
  List.length (targets (game s)) = 2%nat.
Proof. exact (reachable_targets_two rnd sqrt s). Qed.

Lemma two_targets_started :
  exists g k, initializeGame rand_cycle 10 easy 1920 1080 5 0 = Some (g, k).
Proof.
  destruct (initializeGame rand_cycle 10 easy 1920 1080 5 0) as [[g k]|] eqn:E;
    [exists g, k; reflexivity | vm_compute in E; discriminate].
Defined.

Lemma target_count_invariant_witness :
  exists s, reachable rand_cycle sqrt_model s /\ gameState s = InGame /\
            List.length (targets (game s)) = 2%nat.
Proof.
  destruct two_targets_started as [g [k E]].
  assert (R : reachable rand_cycle sqrt_model (mkApp InGame easy g k None)).
  { apply (reach_step _ _ initialApp); [apply reach_init |].
    apply (step_start _ _ initialApp easy 10 1920 1080 5 g k); [discriminate | exact E]. }
  exists (mkApp InGame easy g k None). split; [exact R | split; [reflexivity |]].
  exact (target_count_invariant rand_cycle sqrt_model _ R eq_refl).
Defined.

Definition stats_consistent (st : GameStats) : Prop :=
  Z.of_nat (List.length (reactionTimes_st st)) = totalHits_st st /\
  (totalHits_st st = 0 -> averageReactionTime st = 0%Q) /\
  (totalHits_st st <> 0 ->
     averageReactionTime st =
       (inject_Z (sum_reaction (reactionTimes_st st)) / inject_Z (totalHits_st st))%Q).

Lemma makeStats_consistent (g : GameVars) (d : Difficulty) :
  Z.of_nat (List.length (reactionTimes g)) = totalHits g ->
  stats_consistent (makeStats g d).
Proof.
  intro Inv. unfold stats_consistent, makeStats, avgReactionTime. cbn.
  split; [exact Inv | split].
  - intro H0. rewrite H0 in Inv.
    destruct (reactionTimes g); [reflexivity | simpl in Inv; lia].
  - intro Hn. rewrite <- Inv.
    destruct (reactionTimes g) as [|r l]; [simpl in Inv; congruence | reflexivity].
Qed.

Lemma reachable_hits_consistent (rnd : nat -> Q) (sqrt : Q -> Q) (s : App) :
  reachable rnd sqrt s ->
  Z.of_nat (List.length (reactionTimes (game s))) = totalHits (game s) /\
  (forall st, gameStats s = Some st -> stats_consistent st).
Proof.
  induction 1 as [|s s' R [IHg IHs] St].
  - split; [reflexivity | discriminate].
  - destruct St as [s d fuel W H now g k Hs Hi
                   | s fuel W H now cx cy g k Hc
                   | s W e osc g Hs Hl
                   | s W e osc g Hs Hl
                   | s Hs]; cbn [gameStats game]; (split; [| try exact IHs]).
    + destruct (initializeGame_hits _ _ _ _ _ _ _ _ _ Hi) as [-> ->]. reflexivity.
    + exact (handleCanvasClick_hits _ _ _ _ _ _ _ _ _ _ _ _ _ _ Hc IHg).
    + destruct (gameLoop_hits _ _ _ _ _ _ _ Hl) as [-> [-> _]]. exact IHg.
    + destruct (gameLoop_hits _ _ _ _ _ _ _ Hl) as [-> [-> _]]. exact IHg.
    + intros st E. injection E as <-. apply makeStats_consistent.
      destruct (gameLoop_hits _ _ _ _ _ _ _ Hl) as [-> [-> _]]. exact IHg.
    + exact IHg.
Qed.

(** C7: the statistics frozen at the end of a session have as many
    reaction times as hits, an average of 0 when there were no hits, and
    otherwise the arithmetic mean of the reaction times. *)
Theorem end_stats_average (rnd : nat -> Q) (sqrt : Q -> Q) (s : App) (st : GameStats) :
  reachable rnd sqrt s -> gameStats s = Some st ->
  Z.of_nat (List.length (reactionTimes_st st)) = totalHits_st st /\
  (totalHits_st st = 0 -> averageReactionTime st = 0%Q) /\
  (totalHits_st st <> 0 ->
     averageReactionTime st =
       (inject_Z (sum_reaction (reactionTimes_st st)) / inject_Z (totalHits_st st))%Q).
Proof.
  intros R E. exact (proj2 (reachable_hits_consistent rnd sqrt s R) st E).
Qed.

Lemma end_stats_average_witness :
  exists s st, reachable rand_cycle sqrt_model s /\ gameStats s = Some st /\
    Z.of_nat (List.length (reactionTimes_st st)) = totalHits_st st /\
    (totalHits_st st = 0 -> averageReactionTime st = 0%Q) /\
    (totalHits_st st <> 0 ->
       averageReactionTime st =
         (inject_Z (sum_reaction (reactionTimes_st st)) / inject_Z (totalHits_st st))%Q).
Proof.
  destruct two_targets_started as [g [k E]].
  set (s1 := mkApp InGame easy g k None).
  assert (R1 : reachable rand_cycle sqrt_model s1).
  { apply (reach_step _ _ initialApp); [apply reach_init |].
    apply (step_start _ _ initialApp easy 10 1920 1080 5 g k); [discriminate | exact E]. }
  destruct (handleCanvasClick rand_cycle sqrt_model 10 InGame easy 1920 1080 1005 190 432 g k)
    as [[g2 k2]|] eqn:C.
  2:{ injection E as <- <-. vm_compute in C. discriminate. }
  set (s2 := mkApp InGame easy g2 k2 None).
  assert (R2 : reachable rand_cycle sqrt_model s2).
  { apply (reach_step _ _ s1); [exact R1 |].
    exact (step_click _ _ s1 10 1920 1080 1005 190 432 g2 k2 C). }
  destruct (gameLoop easy 1920 60 0 g2) as [g3 b] eqn:L.
  assert (Hb : b = false).
  { destruct (gameLoop_hits _ _ _ _ _ _ _ L) as [_ [_ [_ ->]]]. reflexivity. }
  subst b.
  set (s3 := mkApp End easy g3 k2 (Some (makeStats g3 easy))).
  assert (R3 : reachable rand_cycle sqrt_model s3).
  { apply (reach_step _ _ s2); [exact R2 |].
    exact (step_frame_end _ _ s2 1920 60 0 g3 eq_refl L). }
  exists s3, (makeStats g3 easy). split; [exact R3 | split; [reflexivity |]].
  exact (end_stats_average rand_cycle sqrt_model s3 _ R3 eq_refl).
Defined.

(** ** The session clock *)

(** Index of the first frame whose remaining time [max(0, 60 - elapsed)] is 0. *)
Fixpoint first_zero (frames : list (Q * Q)) : option nat :=
  match frames with
  | [] => None
  | (e, _) :: rest =>
      if Qeq_bool (Qmax 0 (60 - e)) 0 then Some O else option_map S (first_zero rest)
  end.

Lemma Qmax_0_nonneg (a : Q) : Qle 0 (Qmax 0 a).
Proof.
  unfold Qmax. destruct (Qle_bool 0 a) eqn:E; [apply Qle_bool_iff; exact E | apply Qle_refl].
Qed.

Lemma timeLeft_positive (a : Q) :
  Qltb 0 (Qmax 0 a) = negb (Qeq_bool (Qmax 0 a) 0).
Proof.
  pose proof (Qmax_0_nonneg a) as H.
  destruct (Qeq_bool (Qmax 0 a) 0) eqn:E; cbn [negb].
  - apply Qltb_false. apply Qeq_bool_iff in E. rewrite E. apply Qle_refl.
  - apply Qltb_spec. apply Qle_lteq in H. destruct H as [H | H]; [exact H |].
    exfalso. apply Qeq_sym, Qeq_bool_iff in H. congruence.
Qed.

(** C8: along a run of frames, the remaining time of every processed frame
    is [max(0, 60 - elapsed)]; the session ends exactly at the first frame
    where it is 0, and no frame after it is processed; when it never reaches
    0 every frame is processed and the session does not end.  Outside an
    active session no event produces statistics. *)
Theorem session_clock (d : Difficulty) (W : Q) (frames : list (Q * Q)) (g : GameVars) :
  (let '(tls, st) := run_frames d W frames g in
   tls = map (fun '(e, _) => Qmax 0 (60 - e)) (firstn (List.length tls) frames) /\
   match first_zero frames with
   | Some n => List.length tls = S n /\ st <> None
   | None => List.length tls = List.length frames /\ st = None
   end) /\
  (forall rnd sqrt s s', gameState s <> InGame -> step rnd sqrt s s' ->
     gameStats s' = gameStats s).
Proof.
  split.
  2:{ intros rnd sqrt s s' Hs St.
      destruct St; cbn [gameStats]; try reflexivity; contradiction. }
  revert g. induction frames as [|[e osc] rest IH]; intro g; cbn [run_frames first_zero]; [split; [reflexivity | split; reflexivity] |].
  destruct (gameLoop d W e osc g) as [g' b] eqn:L.
  destruct (gameLoop_hits _ _ _ _ _ _ _ L) as [_ [_ [Tl Hb]]].
  rewrite Hb, timeLeft_positive.
  destruct (Qeq_bool (Qmax 0 (60 - e)) 0) eqn:Z0; cbn [negb].
  - simpl. rewrite Tl. split; [reflexivity | split; [reflexivity | discriminate]].
  - specialize (IH g'). destruct (run_frames d W rest g') as [tls st].
    destruct IH as [Htl Hend]. simpl. rewrite Tl. split; [f_equal; exact Htl |].
    destruct (first_zero rest) as [n|]; simpl; destruct Hend as [Hl Hs];
      (split; [f_equal; exact Hl | exact Hs]).
Qed.

(** * Further properties of the component *)

(** ** Spawning, in full *)

Lemma addNewTarget_eq (rnd : nat -> Q) fuel d W H now g k g' k' :
  addNewTarget rnd fuel d W H now g k = Some (g', k') ->
  exists t,
    g' = mkGameVars (score g) (timeLeft g) (targets g ++ [t]) (feedback g) (sparkles g)
           (nextTargetId g + 1) (perfectHits g) (totalHits g) (mousePos g) (reactionTimes g) /\
    id t = nextTargetId g /\ radius t = size_radius (size t) /\
    (direction t = 1%Q \/ direction t = (-1)%Q) /\
    (d <> hard -> velocity t = 0%Q) /\
    validPosition (x t) (radius t) (targets g) = true /\
    exists j k1, spawn_attempt rnd d W j = (size t, radius t, x t, k1).
Proof.
  unfold addNewTarget. intro E.
  destruct (spawn_loop rnd fuel d (targets g) W k) as [[[[sz rn] xn] k1]|] eqn:L;
    [| discriminate].
  destruct (spawn_loop_exit rnd fuel d (targets g) W k sz rn xn k1 L) as [V [R [j A]]].
  destruct d; injection E as <- <-; eexists; split; try reflexivity;
    cbn [id radius size direction velocity x]; split; try reflexivity;
    split; try exact R;
    (split; [destruct (Qltb (1 # 2) _); [left | right]; reflexivity |]);
    (split; [intro Hd; try reflexivity; congruence |]);
    (split; [exact V |]);
    exists j, k1; exact A.
Qed.

(** ** A state invariant *)

Definition target_ok (t : Target) : Prop :=
  radius t = size_radius (size t) /\ (direction t = 1%Q \/ direction t = (-1)%Q).

Record good_vars (d : Difficulty) (g : GameVars) : Prop := {
  gv_score : 0 <= score g;
  gv_hits : 0 <= perfectHits g <= totalHits g;
  gv_targets : Forall target_ok (targets g);
  gv_ids : NoDup (map id (targets g));
  gv_next : Forall (fun t => id t < nextTargetId g) (targets g);
  gv_sparkles : Forall (fun p => 0 < life p <= 1)%Q (sparkles g);
  gv_feedback : Forall (fun f => 0 < opacity f <= 1)%Q (feedback g);
  gv_still : d <> hard -> Forall (fun t => velocity t = 0%Q) (targets g)
}.

Lemma good_empty (d : Difficulty) : good_vars d emptyGameVars.
Proof.
  split; cbn; try lia; try constructor; intros; constructor.
Qed.

Lemma good_addNewTarget (rnd : nat -> Q) fuel d W H now g k g' k' :
  good_vars d g ->
  addNewTarget rnd fuel d W H now g k = Some (g', k') ->
  good_vars d g'.
Proof.
  intros G E.
  destruct (addNewTarget_eq rnd fuel d W H now g k g' k' E)
    as [t [-> [Hid [Hr [Hd [Hv _]]]]]].
  destruct G as [G1 G2 G3 G4 G5 G6 G7 G8].
  split; cbn [score perfectHits totalHits targets nextTargetId sparkles feedback]; auto.
  - apply Forall_app. split; [exact G3 | constructor; [split; assumption | constructor]].
  - rewrite map_app. apply NoDup_app; [exact G4 | constructor; [intros [] | constructor] |].
    intros a Ha [Heq | []]. apply in_map_iff in Ha. destruct Ha as [t' [<- Ht']].
    rewrite Forall_forall in G5. specialize (G5 t' Ht'). lia.
  - apply Forall_app. split.
    + eapply Forall_impl; [| exact G5]. intros t' H'. cbn beta in H'. lia.
    + constructor; [lia | constructor].
  - intro Hn. apply Forall_app. split; [exact (G8 Hn) | constructor; [exact (Hv Hn) | constructor]].
Qed.

Lemma good_initializeGame (rnd : nat -> Q) fuel d W H now k g k' :
  initializeGame rnd fuel d W H now k = Some (g, k') -> good_vars d g.
Proof.
  unfold initializeGame. intro E.
  destruct (addNewTarget rnd fuel d W H now emptyGameVars k) as [[g1 k1]|] eqn:E1;
    [| discriminate].
  exact (good_addNewTarget _ _ _ _ _ _ _ _ _ _ (good_addNewTarget _ _ _ _ _ _ _ _ _ _
           (good_empty d) E1) E).
Qed.

Lemma remove_at_split {A} (l : list A) (i : nat) (a : A) :
  nth_error l i = Some a ->
  exists l1 l2, l = l1 ++ a :: l2 /\ remove_at i l = l1 ++ l2 /\ List.length l1 = i.
Proof.
  intro E. destruct (nth_error_split l i E) as [l1 [l2 [-> Hl]]].
  exists l1, l2. split; [reflexivity | split; [| exact Hl]].
  unfold remove_at. subst i.
  rewrite firstn_app, Nat.sub_diag, firstn_all, app_nil_r.
  rewrite skipn_app, skipn_all2 by (simpl; lia).
  replace (S (List.length l1) - List.length l1)%nat with 1%nat by lia. reflexivity.
Qed.

Lemma scan_targets_some (sqrt : Q -> Q) (ts : list Target) (cx cy : Q) (n i : nat) :
  scan_targets sqrt n ts cx cy = Some i ->
  (exists t, nth_error ts i = Some t /\ hitsTarget sqrt cx cy t = true) /\
  (forall j t', (i < j < n)%nat -> nth_error ts j = Some t' -> hitsTarget sqrt cx cy t' = false).
Proof.
  induction n as [|m IH]; simpl; [discriminate |].
  destruct (nth_error ts m) as [t|] eqn:Nt.
  - destruct (hitsTarget sqrt cx cy t) eqn:Ht.
    + intro E. injection E as <-. split; [exists t; split; assumption |].
      intros j t' Hj. lia.
    + intro E. destruct (IH E) as [Hex Hall]. split; [exact Hex |].
      intros j t' Hj Nj. destruct (Nat.eq_dec j m) as [-> | Hne].
      * rewrite Nt in Nj. injection Nj as <-. exact Ht.
      * apply (Hall j t'); [lia | exact Nj].
  - intro E. destruct (IH E) as [Hex Hall]. split; [exact Hex |].
    intros j t' Hj Nj. destruct (Nat.eq_dec j m) as [-> | Hne].
    + rewrite Nt in Nj. discriminate.
    + apply (Hall j t'); [lia | exact Nj].
Qed.

Lemma scan_targets_none_inv (sqrt : Q -> Q) (ts : list Target) (cx cy : Q) (n : nat) :
  scan_targets sqrt n ts cx cy = None ->
  forall j t, (j < n)%nat -> nth_error ts j = Some t -> hitsTarget sqrt cx cy t = false.
Proof.
  induction n as [|m IH]; simpl; intros E j t Hj Nj; [lia |].
  destruct (nth_error ts m) as [t0|] eqn:Nt.
  - destruct (hitsTarget sqrt cx cy t0) eqn:Ht; [discriminate |].
    destruct (Nat.eq_dec j m) as [-> | Hne].
    + rewrite Nt in Nj. injection Nj as <-. exact Ht.
    + apply (IH E j t); [lia | exact Nj].
  - destruct (Nat.eq_dec j m) as [-> | Hne].
    + rewrite Nt in Nj. discriminate.
    + apply (IH E j t); [lia | exact Nj].
Qed.

Lemma hit_points_nonneg (d r : Q) :
  (0 < r)%Q -> (d <= r)%Q -> 0 <= fst (calculatePoints d r).
Proof.
  intros Hr Hd. unfold calculatePoints.
  destruct (Qltb (95 # 100) (1 - d / r)) eqn:E; cbn beta zeta iota delta [fst]; [lia |].
  assert (H1 : (d / r <= 1)%Q) by (apply Qle_shift_div_r; [assumption | lra]).
  rewrite <- (Qfloor_Z 0). apply Qfloor_resp_le. unfold inject_Z. lra.
Qed.

Lemma size_radius_pos (s : Size) : (0 < size_radius s)%Q.
Proof. destruct s; reflexivity. Qed.

Lemma good_register_hit (sqrt : Q -> Q) d g i t cx cy now :
  good_vars d g -> nth_error (targets g) i = Some t -> hitsTarget sqrt cx cy t = true ->
  good_vars d (register_hit sqrt g i t cx cy now).
Proof.
  intros [G1 G2 G3 G4 G5 G6 G7 G8] Nt Ht.
  destruct (remove_at_split _ _ _ Nt) as [l1 [l2 [Hl [Hrm _]]]].
  assert (Tok : target_ok t).
  { rewrite Forall_forall in G3. apply G3. rewrite Hl. apply in_or_app. right; left; reflexivity. }
  assert (Hp : 0 <= fst (calculatePoints (click_distance sqrt cx cy t) (radius t))).
  { apply hit_points_nonneg.
    - destruct Tok as [-> _]. apply size_radius_pos.
    - apply Qleb_spec. exact Ht. }
  unfold register_hit.
  destruct (calculatePoints (click_distance sqrt cx cy t) (radius t)) as [pts fbk].
  cbn [fst] in Hp. rewrite Hrm. rewrite Hl in G3, G4, G5.
  split; cbn [score perfectHits totalHits targets nextTargetId sparkles feedback].
  - lia.
  - destruct (String.eqb fbk "PERFECT"); lia.
  - apply Forall_app in G3. destruct G3 as [A1 A2]. inversion A2; subst.
    apply Forall_app; split; assumption.
  - rewrite map_app in G4 |- *. exact (NoDup_remove_1 _ _ _ G4).
  - apply Forall_app in G5. destruct G5 as [A1 A2]. inversion A2; subst.
    apply Forall_app; split; assumption.
  - exact G6.
  - apply Forall_app. split; [exact G7 | constructor; [split; [reflexivity | discriminate] | constructor]].
  - intro Hn. specialize (G8 Hn). rewrite Hl in G8.
    apply Forall_app in G8. destruct G8 as [A1 A2]. inversion A2; subst.
    apply Forall_app; split; assumption.
Qed.

(** The outcome of a click, by case, with what the hit case knows. *)
Lemma handleCanvasClick_cases_hit (rnd : nat -> Q) (sqrt : Q -> Q) fuel gs d W H now cx cy
    g k g' k' :
  handleCanvasClick rnd sqrt fuel gs d W H now cx cy g k = Some (g', k') ->
  (g' = g) \/ (g' = penalty g cx cy) \/ (g' = fst (miss rnd g cx cy k)) \/
  (exists i t, gs = InGame /\ Qle cy (NET_Y H) /\
     scan_targets sqrt (List.length (targets g)) (targets g) cx cy = Some i /\
     nth_error (targets g) i = Some t /\ hitsTarget sqrt cx cy t = true /\
     addNewTarget rnd fuel d W H now (register_hit sqrt g i t cx cy now) k = Some (g', k')).
Proof.
  unfold handleCanvasClick. intro E.
  destruct gs; try (injection E as <- _; left; reflexivity).
  destruct (Qltb (NET_Y H) cy) eqn:Hy; [injection E as <- _; right; left; reflexivity |].
  destruct (scan_targets sqrt (List.length (targets g)) (targets g) cx cy) as [i|] eqn:Sc;
    [| injection E as <- _; right; right; left; reflexivity].
  destruct (nth_error (targets g) i) as [t|] eqn:Nt; [| injection E as <- _; left; reflexivity].
  right; right; right. exists i, t.
  destruct (scan_targets_some sqrt _ cx cy _ _ Sc) as [[t' [Nt' Ht']] _].
  rewrite Nt in Nt'. injection Nt' as <-.
  split; [reflexivity | split; [apply Qltb_false; exact Hy |]].
  repeat split; assumption.
Qed.

Lemma good_handleCanvasClick (rnd : nat -> Q) (sqrt : Q -> Q) fuel gs d W H now cx cy
    g k g' k' :
  good_vars d g ->
  handleCanvasClick rnd sqrt fuel gs d W H now cx cy g k = Some (g', k') ->
  good_vars d g'.
Proof.
  intros G E.
  destruct (handleCanvasClick_cases_hit rnd sqrt fuel gs d W H now cx cy g k g' k' E)
    as [-> | [-> | [-> | [i [t [_ [_ [_ [Nt [Ht A]]]]]]]]]].
  - exact G.
  - destruct G as [G1 G2 G3 G4 G5 G6 G7 G8].
    split; cbn [score perfectHits totalHits targets nextTargetId sparkles feedback penalty]; auto.
    + lia.
    + apply Forall_app. split; [exact G7 | constructor; [split; [reflexivity | discriminate] | constructor]].
  - destruct G as [G1 G2 G3 G4 G5 G6 G7 G8].
    split; cbn [score perfectHits totalHits targets nextTargetId sparkles feedback miss fst]; auto.
    + apply Forall_app. split; [exact G6 |].
      apply Forall_forall. intros p Hp. apply in_map_iff in Hp. destruct Hp as [j [<- _]].
      split; [reflexivity | discriminate].
    + apply Forall_app. split; [exact G7 | constructor; [split; [reflexivity | discriminate] | constructor]].
  - exact (good_addNewTarget _ _ _ _ _ _ _ _ _ _ (good_register_hit sqrt d g i t cx cy now G Nt Ht) A).
Qed.

Lemma filter_some_forall {A B} (f : A -> option B) (P : A -> Prop) (R : B -> Prop) (l : list A) :
  (forall a b, P a -> f a = Some b -> R b) ->
  Forall P l -> Forall R (filter_some (map f l)).
Proof.
  intros Hf HP. induction HP as [|a l Ha HP IH]; simpl; [constructor |].
  destruct (f a) as [b|] eqn:E; [constructor; [exact (Hf a b Ha E) | exact IH] | exact IH].
Qed.


Lemma age_sparkle_life (p p' : Sparkle) :
  age_sparkle p = Some p' -> life p' = (life p - (2 # 100))%Q /\ (0 < life p')%Q.
Proof.
  unfold age_sparkle. destruct (Qleb (life p - (2 # 100)) 0) eqn:E; [discriminate |].
  intro H. injection H as <-. cbn [life]. split; [reflexivity |].
  apply Qnot_le_lt. intro H. apply Qleb_spec in H. congruence.
Qed.

Lemma age_feedback_opacity (f f' : Feedback) :
  age_feedback f = Some f' -> opacity f' = (opacity f - (2 # 100))%Q /\ (0 < opacity f')%Q.
Proof.
  unfold age_feedback. destruct (Qleb (opacity f - (2 # 100)) 0) eqn:E; [discriminate |].
  intro H. injection H as <-. cbn [opacity]. split; [reflexivity |].
  apply Qnot_le_lt. intro H. apply Qleb_spec in H. congruence.
Qed.

(** Frames keep a target's identity, vertical position, size, radius and
    velocity. *)
Definition target_frame_fields (t : Target) : Z * Q * Size * Q * Q * Z :=
  (id t, y t, size t, radius t, velocity t, createdAt t).

Lemma oscillate_fields W o t : target_frame_fields (oscillate W o t) = target_frame_fields t.
Proof. reflexivity. Qed.

Lemma move_target_fields W t : target_frame_fields (move_target W t) = target_frame_fields t.
Proof. unfold move_target. destruct (Qltb 0 (velocity t)); reflexivity. Qed.

Lemma move_target_ok W t : target_ok t -> target_ok (move_target W t).
Proof.
  unfold move_target. intros [Hr Hd].
  destruct (Qltb 0 (velocity t)); [| split; assumption].
  split; [exact Hr |]. cbn [direction].
  destruct (Qltb _ 0); [left; reflexivity |].
  destruct (Qltb W _); [right; reflexivity | exact Hd].
Qed.

Lemma move_target_still W t : velocity t = 0%Q -> move_target W t = t.
Proof. intro H. unfold move_target. rewrite H. reflexivity. Qed.

Lemma gameLoop_targets d W e osc g :
  targets (fst (gameLoop d W e osc g)) =
  map (move_target W) (match d with hard => map (oscillate W osc) (targets g) | _ => targets g end).
Proof. reflexivity. Qed.

Lemma good_gameLoop d W e osc g g' b :
  good_vars d g -> gameLoop d W e osc g = (g', b) -> good_vars d g'.
Proof.
  intros [G1 G2 G3 G4 G5 G6 G7 G8] E.
  assert (Ht := gameLoop_targets d W e osc g). rewrite E in Ht. cbn [fst] in Ht.
  assert (Hf : Forall (fun t => target_ok t) (match d with hard => map (oscillate W osc) (targets g) | _ => targets g end)
             /\ map target_frame_fields (match d with hard => map (oscillate W osc) (targets g) | _ => targets g end)
                = map target_frame_fields (targets g)).
  { destruct d; (split; [| try reflexivity]); try exact G3.
    - apply Forall_map. eapply Forall_impl; [| exact G3]. intros t [Hr Hd]. split; assumption.
    - rewrite map_map. apply map_ext. apply oscillate_fields. }
  destruct Hf as [Hok Hfl].
  assert (Hfields : map target_frame_fields (targets g') = map target_frame_fields (targets g)).
  { rewrite Ht, map_map, <- Hfl. apply map_ext. apply move_target_fields. }
  assert (Hids : map id (targets g') = map id (targets g)).
  { change (map (fun t => fst (fst (fst (fst (fst (target_frame_fields t)))))) (targets g') =
            map (fun t => fst (fst (fst (fst (fst (target_frame_fields t)))))) (targets g)).
    rewrite <- !(map_map target_frame_fields (fun p => fst (fst (fst (fst (fst p)))))), Hfields.
    reflexivity. }
  unfold gameLoop in E. injection E as <- _.
  split; cbn [score perfectHits totalHits targets nextTargetId sparkles feedback]; auto.
  all: cbn [targets] in Hids, Ht.
  - apply Forall_map. eapply Forall_impl; [| exact Hok]. apply move_target_ok.
  - rewrite Hids. exact G4.
  - apply Forall_map.
    assert (Hnx : Forall (fun t => id t < nextTargetId g)
                   (match d with hard => map (oscillate W osc) (targets g) | _ => targets g end)).
    { destruct d; try exact G5. apply Forall_map. exact G5. }
    eapply Forall_impl; [| exact Hnx]. intros t Ht'. unfold move_target.
    destruct (Qltb 0 (velocity t)); exact Ht'.
  - apply (filter_some_forall age_sparkle (fun p => 0 < life p <= 1)%Q); [| exact G6].
    intros p p' [_ H1] Ha. destruct (age_sparkle_life p p' Ha) as [-> H]. split; lra.
  - apply (filter_some_forall age_feedback (fun f => 0 < opacity f <= 1)%Q); [| exact G7].
    intros f f' [_ H1] Ha. destruct (age_feedback_opacity f f' Ha) as [-> H]. split; lra.
  - intro Hn. specialize (G8 Hn).
    destruct d; [| | congruence];
      (rewrite (map_ext_in (move_target W) (fun t => t));
       [rewrite map_id; exact G8 |
        intros t Hin; rewrite Forall_forall in G8; apply move_target_still, G8, Hin]).
Qed.

(** The invariant of the component's states. *)
Definition good (s : App) : Prop :=
  good_vars (difficulty s) (game s) /\
  (forall st, gameStats s = Some st -> 0 <= perfectHits_st st <= totalHits_st st).

Lemma reachable_good (rnd : nat -> Q) (sqrt : Q -> Q) (s : App) :
  reachable rnd sqrt s -> good s.
Proof.
  induction 1 as [|s s' R [IHg IHs] St].
  - split; [apply good_empty | discriminate].
  - destruct St as [s d fuel W H now g k Hs Hi
                   | s fuel W H now cx cy g k Hc
                   | s W e osc g Hs Hl
                   | s W e osc g Hs Hl
                   | s Hs]; unfold good; cbn [gameStats game difficulty];
      (split; [| try exact IHs]).
    + exact (good_initializeGame _ _ _ _ _ _ _ _ _ Hi).
    + exact (good_handleCanvasClick _ _ _ _ _ _ _ _ _ _ _ _ _ _ IHg Hc).
    + exact (good_gameLoop _ _ _ _ _ _ _ IHg Hl).
    + exact (good_gameLoop _ _ _ _ _ _ _ IHg Hl).
    + intros st E. injection E as <-. cbn.
      exact (gv_hits _ _ (good_gameLoop _ _ _ _ _ _ _ IHg Hl)).
    + exact IHg.
Qed.

(** ** Concrete sessions, for running the statements below *)

Definition started_game : GameVars :=
  match initializeGame rand_cycle 10 easy 1920 1080 5 0 with
  | Some (g, _) => g
  | None => emptyGameVars
  end.

Definition started_rng : nat :=
  match initializeGame rand_cycle 10 easy 1920 1080 5 0 with
  | Some (_, k) => k
  | None => O
  end.

Definition started_app : App := mkApp InGame easy started_game started_rng None.

Lemma started_eq :
  initializeGame rand_cycle 10 easy 1920 1080 5 0 = Some (started_game, started_rng).
Proof. vm_compute. reflexivity. Qed.

Lemma started_reachable : reachable rand_cycle sqrt_model started_app.
Proof.
  apply (reach_step _ _ initialApp); [apply reach_init |].
  apply (step_start _ _ initialApp easy 10 1920 1080 5 started_game started_rng);
    [discriminate | exact started_eq].
Qed.



(** ** Properties kept in every reachable state *)





(** Every live target has the radius of its size class (large 190, small
    130) and a direction of 1 or -1. *)
Theorem live_target_shape (rnd : nat -> Q) (sqrt : Q -> Q) (s : App) :
  reachable rnd sqrt s ->
  Forall (fun t => radius t = (match size t with large => 190 | small => 130 end)%Q /\
                   (direction t = 1%Q \/ direction t = (-1)%Q)) (targets (game s)).
Proof.
  intro R. exact (gv_targets _ _ (proj1 (reachable_good rnd sqrt s R))).
Qed.

Lemma live_target_shape_witness :
  reachable rand_cycle sqrt_model started_app /\
  Forall (fun t => radius t = (match size t with large => 190 | small => 130 end)%Q /\
                   (direction t = 1%Q \/ direction t = (-1)%Q)) (targets (game started_app)).
Proof.
  split; [exact started_reachable | exact (live_target_shape _ _ _ started_reachable)].
Defined.

(** Live targets have pairwise distinct identifiers, all below
    [nextTargetId]. *)
Theorem live_target_ids (rnd : nat -> Q) (sqrt : Q -> Q) (s : App) :
  reachable rnd sqrt s ->
  NoDup (map id (targets (game s))) /\
  Forall (fun t => id t < nextTargetId (game s)) (targets (game s)).
Proof.
  intro R. destruct (reachable_good rnd sqrt s R) as [G _].
  split; [exact (gv_ids _ _ G) | exact (gv_next _ _ G)].
Qed.

Lemma live_target_ids_witness :
  reachable rand_cycle sqrt_model started_app /\
  NoDup (map id (targets (game started_app))) /\
  Forall (fun t => id t < nextTargetId (game started_app)) (targets (game started_app)).
Proof.
  split; [exact started_reachable | exact (live_target_ids _ _ _ started_reachable)].
Defined.



(** Outside hard mode every live target has velocity 0, and frames never
    move the targets. *)
Theorem still_targets (rnd : nat -> Q) (sqrt : Q -> Q) (s : App) :
  reachable rnd sqrt s -> difficulty s <> hard ->
  Forall (fun t => velocity t = 0%Q) (targets (game s)) /\
  forall W e osc, targets (fst (gameLoop (difficulty s) W e osc (game s))) = targets (game s).
Proof.
  intros R Hn. destruct (reachable_good rnd sqrt s R) as [G _].
  assert (V := gv_still _ _ G Hn). split; [exact V |].
  intros W e osc. rewrite gameLoop_targets.
  destruct (difficulty s); [| | congruence];
    (rewrite (map_ext_in (move_target W) (fun t => t));
     [apply map_id |
      intros t Hin; rewrite Forall_forall in V; apply move_target_still, V, Hin]).
Qed.

Lemma still_targets_witness :
  (reachable rand_cycle sqrt_model started_app /\ difficulty started_app <> hard) /\
  Forall (fun t => velocity t = 0%Q) (targets (game started_app)) /\
  forall W e osc, targets (fst (gameLoop (difficulty started_app) W e osc (game started_app)))
                  = targets (game started_app).
Proof.
  assert (Hn : difficulty started_app <> hard) by discriminate.
  split; [split; [exact started_reachable | exact Hn] |].
  exact (still_targets _ _ _ started_reachable Hn).
Defined.

(** ** Hit selection *)

(** The click scan returns the highest index — the most recently spawned
    target — among the targets containing the click; when it returns
    nothing, no target contains the click. *)
Theorem scan_targets_last_hit (sqrt : Q -> Q) (ts : list Target) (cx cy : Q) :
  match scan_targets sqrt (List.length ts) ts cx cy with
  | Some i =>
      (exists t, nth_error ts i = Some t /\ hitsTarget sqrt cx cy t = true) /\
      (forall j t', (i < j)%nat -> nth_error ts j = Some t' -> hitsTarget sqrt cx cy t' = false)
  | None => forall t, In t ts -> hitsTarget sqrt cx cy t = false
  end.
Proof.
  destruct (scan_targets sqrt (List.length ts) ts cx cy) as [i|] eqn:E.
  - destruct (scan_targets_some sqrt ts cx cy _ _ E) as [Hex Hall].
    split; [exact Hex |]. intros j t' Hj Nj.
    apply (Hall j t'); [| exact Nj].
    split; [exact Hj | apply nth_error_Some; rewrite Nj; discriminate].
  - intros t Hin. destruct (In_nth_error ts t Hin) as [j Nj].
    apply (scan_targets_none_inv sqrt ts cx cy _ E j t); [| exact Nj].
    apply nth_error_Some. rewrite Nj. discriminate.
Qed.

(** A hit in an active session removes the hit target from the live set
    (its identifier is no longer live), spawns a replacement carrying the
    previous [nextTargetId], and counts one more hit. *)
Theorem hit_replaces_target (rnd : nat -> Q) (sqrt : Q -> Q) (s : App) fuel W H now cx cy
    i t g' k' :
  reachable rnd sqrt s -> gameState s = InGame -> Qle cy (NET_Y H) ->
  scan_targets sqrt (List.length (targets (game s))) (targets (game s)) cx cy = Some i ->
  nth_error (targets (game s)) i = Some t ->
  handleCanvasClick rnd sqrt fuel (gameState s) (difficulty s) W H now cx cy (game s) (rng s)
    = Some (g', k') ->
  ~ In (id t) (map id (targets g')) /\
  In (nextTargetId (game s)) (map id (targets g')) /\
  totalHits g' = totalHits (game s) + 1.
Proof.
  intros R Hs Hy Sc Nt E.
  destruct (reachable_good rnd sqrt s R) as [G _].
  rewrite Hs in E. unfold handleCanvasClick in E.
  assert (Hy' : Qltb (NET_Y H) cy = false) by (apply Qltb_false; exact Hy).
  rewrite Hy', Sc, Nt in E.
  destruct (addNewTarget_eq _ _ _ _ _ _ _ _ _ _ E) as [tn [-> [Hid _]]].
  destruct (remove_at_split _ _ _ Nt) as [l1 [l2 [Hl [Hrm _]]]].
  unfold register_hit in *.
  destruct (calculatePoints (click_distance sqrt cx cy t) (radius t)) as [pts fbk].
  cbn [targets nextTargetId totalHits] in *. rewrite Hrm.
  assert (Hnd := gv_ids _ _ G). assert (Hnx := gv_next _ _ G).
  rewrite Hl in Hnd, Hnx. rewrite map_app in Hnd. cbn [map] in Hnd.
  assert (Hlt : id t < nextTargetId (game s)).
  { rewrite Forall_forall in Hnx. apply Hnx. apply in_or_app. right; left; reflexivity. }
  split; [| split; [| reflexivity]].
  - rewrite !map_app. cbn [map]. intro Hin. apply in_app_or in Hin. destruct Hin as [Hin | [Heq | []]].
    + exact (NoDup_remove_2 _ _ _ Hnd Hin).
    + lia.
  - rewrite map_app. apply in_or_app. right. left. exact Hid.
Qed.

Lemma hit_replaces_target_witness :
  exists g' k',
    (reachable rand_cycle sqrt_model started_app /\ gameState started_app = InGame /\
     Qle 432 (NET_Y 1080) /\
     scan_targets sqrt_model (List.length (targets (game started_app))) (targets (game started_app))
       190 432 = Some 0%nat /\
     nth_error (targets (game started_app)) 0 = Some (nth 0 (targets started_game) (mkTarget 0 0 0 0 small 0 0 0)) /\
     handleCanvasClick rand_cycle sqrt_model 10 (gameState started_app) (difficulty started_app)
       1920 1080 1005 190 432 (game started_app) (rng started_app) = Some (g', k')) /\
    ~ In (id (nth 0 (targets started_game) (mkTarget 0 0 0 0 small 0 0 0))) (map id (targets g')) /\
    In (nextTargetId (game started_app)) (map id (targets g')) /\
    totalHits g' = totalHits (game started_app) + 1.
Proof.
  destruct (handleCanvasClick rand_cycle sqrt_model 10 (gameState started_app) (difficulty started_app)
       1920 1080 1005 190 432 (game started_app) (rng started_app)) as [[g' k']|] eqn:E;
    [| vm_compute in E; discriminate].
  assert (Hy : Qle 432 (NET_Y 1080)) by (vm_compute; discriminate).
  assert (Sc : scan_targets sqrt_model (List.length (targets (game started_app)))
                 (targets (game started_app)) 190 432 = Some 0%nat) by (vm_compute; reflexivity).
  assert (Nt : nth_error (targets (game started_app)) 0 =
               Some (nth 0 (targets started_game) (mkTarget 0 0 0 0 small 0 0 0)))
    by (vm_compute; reflexivity).
  exists g', k'.
  split; [repeat split; try assumption; try reflexivity; exact started_reachable |].
  exact (hit_replaces_target rand_cycle sqrt_model started_app 10 1920 1080 1005 190 432 0
           _ g' k' started_reachable eq_refl Hy Sc Nt E).
Defined.

(** ** Geometry of spawning and motion *)

Lemma spawn_attempt_shape (rnd : nat -> Q) d W j sz rn xn k1 :
  spawn_attempt rnd d W j = (sz, rn, xn, k1) ->
  rn = size_radius sz /\ exists m, xn = (rnd m * (W - rn * 2) + rn)%Q.
Proof.
  unfold spawn_attempt. intro E.
  destruct d; [| destruct (Qltb (1 # 2) (rnd j)) ..]; injection E as <- <- <- _;
    (split; [reflexivity | eexists; reflexivity]).
Qed.

(** When the canvas is at least as wide as the new target, the spawned
    target lies horizontally inside the canvas: [radius <= x <= width - radius]. *)
Theorem spawn_inside_canvas (rnd : nat -> Q) fuel d W H now g k g' k' :
  (forall n, 0 <= rnd n < 1)%Q ->
  addNewTarget rnd fuel d W H now g k = Some (g', k') ->
  exists t, targets g' = targets g ++ [t] /\
    (radius t * 2 <= W -> radius t <= x t <= W - radius t)%Q.
Proof.
  intros Hr E.
  destruct (addNewTarget_eq rnd fuel d W H now g k g' k' E)
    as [t [-> [_ [_ [_ [_ [_ [j [k1 A]]]]]]]]].
  exists t. split; [reflexivity |]. intro Hw.
  destruct (spawn_attempt_shape rnd d W j _ _ _ _ A) as [_ [m Hx]].
  rewrite Hx. specialize (Hr m). destruct Hr as [H0 H1].
  split; nra.
Qed.

Lemma spawn_inside_canvas_witness :
  exists g' k',
    ((forall n, 0 <= rand_cycle n < 1)%Q /\
     addNewTarget rand_cycle 10 intermediate 1920 1080 7 one_target_game 0 = Some (g', k')) /\
    exists t, targets g' = targets one_target_game ++ [t] /\
      (radius t * 2 <= 1920 -> radius t <= x t <= 1920 - radius t)%Q.
Proof.
  destruct (addNewTarget rand_cycle 10 intermediate 1920 1080 7 one_target_game 0)
    as [[g' k']|] eqn:E; [| vm_compute in E; discriminate].
  assert (Hr : (forall n, 0 <= rand_cycle n < 1)%Q).
  { intro n. unfold rand_cycle.
    assert (Hm : (Nat.modulo (n * 7) 10 < 10)%nat) by (apply Nat.mod_upper_bound; lia).
    generalize dependent (Nat.modulo (n * 7) 10). intros m Hm.
    unfold Qle, Qlt; cbn [Qnum Qden]; split; lia. }
  exists g', k'. split; [split; [exact Hr | reflexivity] |].
  exact (spawn_inside_canvas rand_cycle 10 intermediate 1920 1080 7 one_target_game 0 g' k' Hr E).
Defined.

Lemma Qmax_le_l a b : Qle a (Qmax a b).
Proof.
  unfold Qmax. destruct (Qle_bool a b) eqn:E; [apply Qle_bool_iff; exact E | apply Qle_refl].
Qed.

Lemma Qmax_le_iff a b c : Qle a c -> Qle b c -> Qle (Qmax a b) c.
Proof. unfold Qmax. destruct (Qle_bool a b); auto. Qed.

Lemma Qmin_le_l a b : Qle (Qmin a b) a.
Proof.
  unfold Qmin. destruct (Qle_bool a b) eqn:E; [apply Qle_refl |].
  apply Qlt_le_weak, Qnot_le_lt. intro H. apply Qle_bool_iff in H. congruence.
Qed.

(** Hard-mode oscillation clamps a target back into the canvas: when the
    canvas is at least as wide as the target, [radius <= x <= width - radius]
    after the step, whatever the offset. *)
Theorem oscillate_inside_canvas (W osc : Q) (t : Target) :
  Qle (radius t * 2) W ->
  Qle (radius t) (x (oscillate W osc t)) /\ Qle (x (oscillate W osc t)) (W - radius t).
Proof.
  intro Hw. unfold oscillate. cbn [x]. split.
  - apply Qmax_le_l.
  - apply Qmax_le_iff; [lra | apply Qmin_le_l].
Qed.

Lemma oscillate_inside_canvas_witness :
  Qle (radius (mkTarget 0 5 432 190 large 1 1 5) * 2) 1920 /\
  Qle (radius (mkTarget 0 5 432 190 large 1 1 5)) (x (oscillate 1920 (-2) (mkTarget 0 5 432 190 large 1 1 5))) /\
  Qle (x (oscillate 1920 (-2) (mkTarget 0 5 432 190 large 1 1 5))) (1920 - radius (mkTarget 0 5 432 190 large 1 1 5)).
Proof.
  assert (Hw : Qle (radius (mkTarget 0 5 432 190 large 1 1 5) * 2) 1920) by (vm_compute; discriminate).
  split; [exact Hw | exact (oscillate_inside_canvas 1920 (-2) _ Hw)].
Defined.

(** ** Frames *)


(** ** Lifetime of visual effects *)

(** [n] successive frames of the age-and-prune step on one sparkle. *)
Fixpoint age_sparkle_frames (n : nat) (p : Sparkle) : option Sparkle :=
  match n with
  | O => Some p
  | S m => match age_sparkle p with Some p' => age_sparkle_frames m p' | None => None end
  end.

Fixpoint age_feedback_frames (n : nat) (f : Feedback) : option Feedback :=
  match n with
  | O => Some f
  | S m => match age_feedback f with Some f' => age_feedback_frames m f' | None => None end
  end.

(** Sparkles and feedback texts are created with life (opacity) 1: such an
    effect survives 49 frames and is pruned by the 50th. *)
Theorem effect_lifetime (p : Sparkle) (f : Feedback) :
  life p = 1%Q -> opacity f = 1%Q ->
  age_sparkle_frames 49 p <> None /\ age_sparkle_frames 50 p = None /\
  age_feedback_frames 49 f <> None /\ age_feedback_frames 50 f = None.
Proof.
  destruct p as [px py pl pa psp pr], f as [fx fy ft fp fo fm]. cbn [life opacity].
  intros -> ->.
  split; [vm_compute; discriminate | split; [vm_compute; reflexivity |]].
  split; [vm_compute; discriminate | vm_compute; reflexivity].
Qed.

Lemma effect_lifetime_witness :
  (life (make_sparkle rand_zero 300 300 0 3) = 1%Q /\
   opacity (mkFeedback 300 300 "MISS" 0 1 (Some true)) = 1%Q) /\
  age_sparkle_frames 49 (make_sparkle rand_zero 300 300 0 3) <> None /\
  age_sparkle_frames 50 (make_sparkle rand_zero 300 300 0 3) = None /\
  age_feedback_frames 49 (mkFeedback 300 300 "MISS" 0 1 (Some true)) <> None /\
  age_feedback_frames 50 (mkFeedback 300 300 "MISS" 0 1 (Some true)) = None.
Proof.
  assert (H1 : life (make_sparkle rand_zero 300 300 0 3) = 1%Q) by reflexivity.
  assert (H2 : opacity (mkFeedback 300 300 "MISS" 0 1 (Some true)) = 1%Q) by reflexivity.
  split; [split; assumption | exact (effect_lifetime _ _ H1 H2)].
Defined.

(** ** Starting a session *)



(** ** What the HUD and the end screen display *)

(** [Math.trunc], [%] on numbers, [Math.round] and [String.prototype.padStart]. *)
Definition Math_trunc (q : Q) : Z := if Qltb q 0 then Qceiling q else Qfloor q.

Definition js_rem (a b : Q) : Q := (a - b * inject_Z (Math_trunc (a / b)))%Q.


Fixpoint repeat_char (n : nat) (c : Ascii.ascii) : string :=
  match n with O => EmptyString | S m => String c (repeat_char m c) end.

Definition padStart (s : string) (n : nat) (c : Ascii.ascii) : string :=
  if Nat.leb n (String.length s) then s
  else (repeat_char (n - String.length s) c ++ s)%string.

Definition zero_char : Ascii.ascii := Ascii.ascii_of_nat 48.  (* '0' *)

(** The TIME box of [renderGame]. *)
Definition hud_minutes (timeLeft : Q) : Z := Qfloor (timeLeft / 60).
Definition hud_seconds (timeLeft : Q) : Z := Qfloor (js_rem timeLeft 60).
Definition hud_time (timeLeft : Q) : string :=
  (padStart (string_of_Z (hud_minutes timeLeft)) 2 zero_char ++ ":" ++
   padStart (string_of_Z (hud_seconds timeLeft)) 2 zero_char)%string.


Example hud_time_start : hud_time 60 = "01:00"%string.
Proof. reflexivity. Qed.

Example hud_time_mid : hud_time (754 # 20) = "00:37"%string.
Proof. reflexivity. Qed.

Lemma string_length_append (s1 s2 : string) :
  String.length (s1 ++ s2) = (String.length s1 + String.length s2)%nat.
Proof. induction s1 as [|c s1 IH]; simpl; [reflexivity | rewrite IH; reflexivity]. Qed.

Lemma pad2_two_digits (m : Z) :
  0 <= m <= 59 -> String.length (padStart (string_of_Z m) 2 zero_char) = 2%nat.
Proof.
  intro Hm.
  assert (All : forallb (fun n => Nat.eqb (String.length
                  (padStart (string_of_Z (Z.of_nat n)) 2 zero_char)) 2) (seq 0 60) = true)
    by reflexivity.
  rewrite forallb_forall in All.
  specialize (All (Z.to_nat m)). rewrite Z2Nat.id in All by lia.
  apply Nat.eqb_eq, All, in_seq. lia.
Qed.

(** The HUD clock: for a remaining time in [[0, 60]] it shows minutes 0
    with seconds 0 to 59, or exactly 01:00, always as five characters
    [MM:SS]. *)
Theorem hud_time_format (tl : Q) :
  Qle 0 tl -> Qle tl 60 ->
  ((hud_minutes tl = 0 /\ 0 <= hud_seconds tl <= 59) \/
   (hud_minutes tl = 1 /\ hud_seconds tl = 0)) /\
  String.length (hud_time tl) = 5%nat.
Proof.
  intros H0 H60.
  assert (Hd0 : Qle 0 (tl / 60)) by (apply Qle_shift_div_l; [reflexivity | lra]).
  assert (Hd1 : Qle (tl / 60) 1) by (apply Qle_shift_div_r; [reflexivity | lra]).
  assert (Hm0 : 0 <= hud_minutes tl)
    by (unfold hud_minutes; rewrite <- (Qfloor_Z 0); apply Qfloor_resp_le; exact Hd0).
  assert (Hm1 : hud_minutes tl <= 1)
    by (unfold hud_minutes; rewrite <- (Qfloor_Z 1); apply Qfloor_resp_le; exact Hd1).
  assert (Ht : Math_trunc (tl / 60) = hud_minutes tl).
  { unfold Math_trunc. replace (Qltb (tl / 60) 0) with false; [reflexivity |].
    symmetry. apply Qltb_false. exact Hd0. }
  assert (Hcase : (hud_minutes tl = 0 /\ 0 <= hud_seconds tl <= 59) \/
                  (hud_minutes tl = 1 /\ hud_seconds tl = 0)).
  { unfold hud_seconds, js_rem. rewrite Ht.
    destruct (Z.eq_dec (hud_minutes tl) 0) as [E0 | E1].
    - left. split; [exact E0 |]. rewrite E0.
      assert (Hlt : Qlt (tl / 60) 1).
      { pose proof (Qlt_floor (tl / 60)) as L. fold (hud_minutes tl) in L.
        rewrite E0 in L. exact L. }
      assert (Htl : Qlt tl 60).
      { apply Qnot_le_lt. intro Hge. apply (Qlt_not_le _ _ Hlt).
        apply Qle_shift_div_l; [reflexivity | lra]. }
      assert (Hq : (tl - 60 * inject_Z 0 == tl)%Q) by (unfold inject_Z; ring).
      rewrite (Qfloor_comp _ _ Hq).
      pose proof (Qfloor_resp_le 0 tl H0) as Lo. change (Qfloor 0) with 0 in Lo.
      pose proof (Qfloor_le tl) as Hf.
      assert (Hz : (Qfloor tl < 60)%Z).
      { rewrite Zlt_Qlt. unfold inject_Z at 2. lra. }
      lia.
    - right. assert (E : hud_minutes tl = 1) by lia. split; [exact E |]. rewrite E.
      assert (Hge : Qle 1 (tl / 60)).
      { pose proof (Qfloor_le (tl / 60)) as L. fold (hud_minutes tl) in L.
        rewrite E in L. exact L. }
      assert (Htl : Qle 60 tl).
      { apply Qnot_lt_le. intro Hlt. apply (Qle_not_lt _ _ Hge).
        apply Qlt_shift_div_r; [reflexivity | lra]. }
      rewrite (Qfloor_comp _ 0); [reflexivity |]. unfold inject_Z. lra. }
  split; [exact Hcase |].
  unfold hud_time. rewrite !string_length_append. cbn [String.length].
  destruct Hcase as [[Em Es] | [Em Es]];
    rewrite pad2_two_digits by lia; rewrite pad2_two_digits by lia; reflexivity.
Qed.

Lemma hud_time_format_witness :
  (Qle 0 (754 # 20) /\ Qle (754 # 20) 60) /\
  ((hud_minutes (754 # 20) = 0 /\ 0 <= hud_seconds (754 # 20) <= 59) \/
   (hud_minutes (754 # 20) = 1 /\ hud_seconds (754 # 20) = 0)) /\
  String.length (hud_time (754 # 20)) = 5%nat.
Proof.
  assert (H0 : Qle 0 (754 # 20)) by (vm_compute; discriminate).
  assert (H1 : Qle (754 # 20) 60) by (vm_compute; discriminate).
  split; [split; assumption | exact (hud_time_format _ H0 H1)].
Defined.




Lemma fold_add_shift (rt : list Z) (a : Z) :
  fold_left Z.add rt a = a + fold_left Z.add rt 0.
Proof.
  revert a. induction rt as [|r rt IH]; intro a; simpl; [lia |].
  rewrite (IH (a + r)), (IH r). lia.
Qed.

Lemma sum_reaction_bounds (lo hi : Z) (rt : list Z) :
  Forall (fun r => lo <= r <= hi) rt ->
  Z.of_nat (List.length rt) * lo <= sum_reaction rt <= Z.of_nat (List.length rt) * hi.
Proof.
  unfold sum_reaction. induction 1 as [|r rt Hr _ IH]; cbn [fold_left List.length]; [lia |].
  rewrite fold_add_shift. rewrite Nat2Z.inj_succ in *. lia.
Qed.

(** The average reaction time of the end screen lies between the smallest
    and the largest bound of the recorded reaction times: when every
    recorded time is in [[lo, hi]], so is the average. *)
Theorem avgReactionTime_between (lo hi : Z) (rt : list Z) :
  rt <> [] -> Forall (fun r => lo <= r <= hi) rt ->
  Qle (inject_Z lo) (avgReactionTime rt) /\ Qle (avgReactionTime rt) (inject_Z hi).
Proof.
  intros Hne Hall. destruct (sum_reaction_bounds lo hi rt Hall) as [L U].
  unfold avgReactionTime.
  destruct rt as [|r rt']; [contradiction |].
  set (n := Z.of_nat (List.length (r :: rt'))) in *.
  assert (Hn : 0 < n) by (subst n; simpl; lia).
  replace (Nat.ltb 0 (List.length (r :: rt'))) with true by reflexivity.
  assert (Hq : Qlt 0 (inject_Z n)) by (rewrite Zlt_Qlt in Hn; exact Hn).
  split.
  - apply Qle_shift_div_l; [exact Hq |].
    rewrite <- inject_Z_mult, <- Zle_Qle. lia.
  - apply Qle_shift_div_r; [exact Hq |].
    rewrite <- inject_Z_mult, <- Zle_Qle. lia.
Qed.

Lemma avgReactionTime_between_witness :
  ([412; 380; 655] <> [] /\ Forall (fun r => 300 <= r <= 700) [412; 380; 655]) /\
  Qle (inject_Z 300) (avgReactionTime [412; 380; 655]) /\
  Qle (avgReactionTime [412; 380; 655]) (inject_Z 700).
Proof.
  assert (H1 : [412; 380; 655] <> []) by discriminate.
  assert (H2 : Forall (fun r => 300 <= r <= 700) [412; 380; 655])
    by (repeat constructor; lia).
  split; [split; assumption | exact (avgReactionTime_between _ _ _ H1 H2)].
Defined.

Lemma calculatePoints_le_100 (d r : Q) : fst (calculatePoints d r) <= 100.
Proof.
  unfold calculatePoints.
  destruct (Qltb (95 # 100) (1 - d / r)) eqn:E; cbn beta zeta iota delta [fst]; [lia |].
  apply Qltb_false in E.
  assert (Hm : Qle ((1 - d / r) * 100) 95) by lra.
  pose proof (Qfloor_resp_le _ _ Hm) as L. change (Qfloor 95) with 95 in L. lia.
Qed.

(** One click changes the score by at least -10 and at most +100: in the
    penalty zone it loses at most 10 points, a miss leaves it, and a hit
    adds the target's points, between 0 and 100. *)
Theorem click_score_change (rnd : nat -> Q) (sqrt : Q -> Q) (s : App) fuel W H now cx cy
    g' k' :
  reachable rnd sqrt s ->
  handleCanvasClick rnd sqrt fuel (gameState s) (difficulty s) W H now cx cy (game s) (rng s)
    = Some (g', k') ->
  score (game s) - 10 <= score g' <= score (game s) + 100.
Proof.
  intros R E. destruct (reachable_good rnd sqrt s R) as [G _].
  pose proof (gv_score _ _ G) as S0.
  destruct (handleCanvasClick_cases_hit rnd sqrt fuel _ _ W H now cx cy _ _ g' k' E)
    as [-> | [-> | [-> | [i [t [_ [_ [_ [Nt [Hh A]]]]]]]]]]; [lia | simpl; lia | simpl; lia |].
  destruct (addNewTarget_spec rnd fuel _ W H now _ _ g' k' A)
    as [t' [j [_ [_ [_ [_ [_ [_ [Sc _]]]]]]]]].
  rewrite Sc. unfold register_hit.
  pose proof (calculatePoints_le_100 (click_distance sqrt cx cy t) (radius t)) as Up.
  assert (Tok : target_ok t)
    by (exact (proj1 (Forall_forall _ _) (gv_targets _ _ G) t (nth_error_In _ _ Nt))).
  destruct Tok as [Hr _].
  assert (Hr0 : Qlt 0 (radius t)) by (rewrite Hr; apply size_radius_pos).
  unfold hitsTarget in Hh. apply Qleb_spec in Hh.
  pose proof (hit_points_nonneg _ _ Hr0 Hh) as Lo.
  destruct (calculatePoints (click_distance sqrt cx cy t) (radius t)) as [pts fbk].
  simpl in Lo, Up |- *. lia.
Qed.

Lemma click_score_change_witness :
  exists g' k',
    (reachable rand_cycle sqrt_model started_app /\
     handleCanvasClick rand_cycle sqrt_model 10 (gameState started_app) (difficulty started_app)
       1920 1080 1005 190 432 (game started_app) (rng started_app) = Some (g', k')) /\
    score (game started_app) - 10 <= score g' <= score (game started_app) + 100.
Proof.
  destruct (handleCanvasClick rand_cycle sqrt_model 10 (gameState started_app) (difficulty started_app)
       1920 1080 1005 190 432 (game started_app) (rng started_app)) as [[g' k']|] eqn:E;
    [| vm_compute in E; discriminate].
  exists g', k'. split; [split; [exact started_reachable | reflexivity] |].
  exact (click_score_change rand_cycle sqrt_model started_app 10 1920 1080 1005 190 432
           g' k' started_reachable E).
Defined.
